(** * go.db: the JSON file store ([src/Manager/JSON/JSON.ts])

    A shallow embedding of the [DataBase] class and the properties of its
    operations [set], [get], [fetch], [delete], [has], [add], [subtract],
    [push], [pull], [all] and [reset].

    Modelling choices, all of them visible in the definitions below:

    - A JSON value is the tagged union [json].  The content of the backing
      file is kept parsed: [JSON.parse (JSON.stringify v)] is the identity on
      [json], except for what an array loses when it is serialised (named
      properties, and holes, which come back as [null]); both are written
      out in [store_prop] and [delete_prop].
    - Numbers are integers ([Z]); [NaN], infinities, fractions and rounding
      are not represented.  Strings are sequences of code units ([string]).
    - A JavaScript object is the finite map of its own properties, kept as
      an association list in insertion order (the runtime lists keys that
      are array indexes first; that reordering is not represented).
      Properties inherited from the built-in prototypes ([__proto__],
      [constructor], [hasOwnProperty], ...) are not represented: a key or a
      part of a key is the name of an own property, and the methods the code
      calls ([hasOwnProperty], [push], [splice], [indexOf], [reduce]) are
      the built-in ones.
    - An exception keeps the state reached when it was raised, so that a
      write followed by a failure would be observable. *)

From Stdlib Require Import String Ascii List ZArith NArith Bool Lia.
From Stdlib Require Import DecimalString.
Import ListNotations.
Local Open Scope string_scope.
Local Open Scope list_scope.
Set Warnings "-register-all,-notation-for-abbreviation".

(** ** JSON values *)

Inductive json : Type :=
| JNull
| JBool (b : bool)
| JNum (n : Z)
| JStr (s : string)
| JArr (elements : list json)
| JObj (members : list (string * json)).

(** What an expression of the program evaluates to: a JSON value, or
    [undefined]. *)
Definition jsvalue : Type := option json.
Notation undefined := (@None json).

(** ** Exceptions *)

(** The messages of [DatabaseError], with the names the specification gives
    them. *)
Inductive DatabaseError : Type :=
| InvalidKey                                   (* The key is not defined! *)
| InvalidKeyType                               (* The key must be a string! *)
| InvalidValueType                             (* The value must be a number! *)
| CannotCreateProperty (part type : string)    (* Cannot create property 'part' on type *)
| NonNumericTarget (key : string)              (* Cannot add a number to a non-numeric value at key 'key' *)
| CannotPush (key : string)                    (* Cannot push to a non-array value at key 'key' *)
| CannotPull (key : string).                   (* Cannot pull from a non-array value at key 'key' *)

Definition message (e : DatabaseError) : string :=
  match e with
  | InvalidKey => "The key is not defined!"
  | InvalidKeyType => "The key must be a string!"
  | InvalidValueType => "The value must be a number!"
  | CannotCreateProperty part type =>
      "Cannot create property '" ++ part ++ "' on " ++ type
  | NonNumericTarget key =>
      "Cannot add a number to a non-numeric value at key '" ++ key ++ "'"
  | CannotPush key => "Cannot push to a non-array value at key '" ++ key ++ "'"
  | CannotPull key => "Cannot pull from a non-array value at key '" ++ key ++ "'"
  end.

(** [NotAnArray] of the specification covers both array messages. *)
Definition NotAnArray (e : DatabaseError) : bool :=
  match e with CannotPush _ | CannotPull _ => true | _ => false end.

Inductive exn : Type :=
| DbError (e : DatabaseError)   (* thrown by the class itself *)
| TypeError                     (* thrown by the runtime *)
| RangeError.                   (* thrown by the runtime: invalid array length *)

Inductive outcome (A : Type) : Type :=
| Return (a : A)
| Throw (e : exn).
Arguments Return {A} a.
Arguments Throw {A} e.

Definition obind {A B} (o : outcome A) (k : A -> outcome B) : outcome B :=
  match o with
  | Return a => k a
  | Throw e => Throw e
  end.

Declare Scope outcome_scope.
Delimit Scope outcome_scope with outcome.
Bind Scope outcome_scope with outcome.
Notation "x <- o ;; k" := (obind o (fun x => k))
  (at level 61, o at next level, right associativity) : outcome_scope.

(** ** The operators of the language on JSON values *)

(** [typeof v]. *)
Definition typeof (v : jsvalue) : string :=
  match v with
  | None => "undefined"
  | Some JNull => "object"
  | Some (JBool _) => "boolean"
  | Some (JNum _) => "number"
  | Some (JStr _) => "string"
  | Some (JArr _) => "object"
  | Some (JObj _) => "object"
  end.

(** [typeof v === 'object']. *)
Definition typeof_object (v : jsvalue) : bool :=
  match v with
  | Some JNull | Some (JArr _) | Some (JObj _) => true
  | _ => false
  end.

(** Truthiness, as tested by [if (v)] and [!v]. *)
Definition truthy_json (v : json) : bool :=
  match v with
  | JNull => false
  | JBool b => b
  | JNum n => negb (Z.eqb n 0)
  | JStr s => negb (String.eqb s "")
  | JArr _ => true
  | JObj _ => true
  end.

Definition truthy (v : jsvalue) : bool :=
  match v with
  | None => false
  | Some j => truthy_json j
  end.

(** [Array.isArray v]. *)
Definition isArray (v : jsvalue) : bool :=
  match v with Some (JArr _) => true | _ => false end.

(** [a === b] between an element read from the parsed file and a value
    passed by the caller: two objects or arrays are equal only when they are
    the same object, which a freshly parsed element never is. *)
Definition strict_equals (a b : json) : bool :=
  match a, b with
  | JNull, JNull => true
  | JBool x, JBool y => Bool.eqb x y
  | JNum x, JNum y => Z.eqb x y
  | JStr x, JStr y => String.eqb x y
  | _, _ => false
  end.

(** ** Own properties *)

(** An array index is a canonical decimal numeral below [2^32 - 1]. *)
Definition string_of_N (n : N) : string :=
  NilZero.string_of_uint (N.to_uint n).

Definition array_index (k : string) : option nat :=
  match NilZero.uint_of_string k with
  | Some u =>
      let n := N.of_uint u in
      if String.eqb (string_of_N n) k && N.ltb n 4294967295
      then Some (N.to_nat n) else None
  | None => None
  end.

Fixpoint lookup (k : string) (m : list (string * json)) : jsvalue :=
  match m with
  | [] => None
  | (k', v) :: m' => if String.eqb k k' then Some v else lookup k m'
  end.

Definition has_key (k : string) (m : list (string * json)) : bool :=
  match lookup k m with Some _ => true | None => false end.

(** The value at [k] replaced; nothing happens when [k] is not a key. *)
Fixpoint replace (k : string) (v : json) (m : list (string * json))
  : list (string * json) :=
  match m with
  | [] => []
  | (k', v') :: m' =>
      if String.eqb k k' then (k', v) :: m' else (k', v') :: replace k v m'
  end.

(** [m[k] = v] on a mapping: an existing key keeps its place, a new key
    goes last. *)
Definition insert (k : string) (v : json) (m : list (string * json))
  : list (string * json) :=
  if has_key k m then replace k v m else m ++ [(k, v)].

Definition remove (k : string) (m : list (string * json))
  : list (string * json) :=
  filter (fun kv => negb (String.eqb k (fst kv))) m.

(** The one-character string at position [i]. *)
Definition char_at (s : string) (i : nat) : option string :=
  match String.get i s with
  | Some c => Some (String c "")
  | None => None
  end.

(** [o.hasOwnProperty(k)].  On [null] the property access throws. *)
Definition has_own (o : json) (k : string) : outcome bool :=
  match o with
  | JNull => Throw TypeError
  | JBool _ | JNum _ => Return false
  | JStr s =>
      Return (String.eqb k "length" ||
              match array_index k with
              | Some i => Nat.ltb i (String.length s)
              | None => false
              end)
  | JArr l =>
      Return (String.eqb k "length" ||
              match array_index k with
              | Some i => Nat.ltb i (List.length l)
              | None => false
              end)
  | JObj m => Return (has_key k m)
  end.

(** [o[k]]. *)
Definition get_prop (o : json) (k : string) : outcome jsvalue :=
  match o with
  | JNull => Throw TypeError
  | JBool _ | JNum _ => Return undefined
  | JStr s =>
      if String.eqb k "length" then Return (Some (JNum (Z.of_nat (String.length s))))
      else match array_index k with
           | Some i => Return (option_map JStr (char_at s i))
           | None => Return undefined
           end
  | JArr l =>
      if String.eqb k "length" then Return (Some (JNum (Z.of_nat (List.length l))))
      else match array_index k with
           | Some i => Return (nth_error l i)
           | None => Return undefined
           end
  | JObj m => Return (lookup k m)
  end.

(** An array with the element at [i] set to [v]; the positions the array
    did not have yet are holes, which the file stores as [null]. *)
Fixpoint set_nth (i : nat) (v : json) (l : list json) : list json :=
  match i, l with
  | O, [] => [v]
  | O, _ :: l' => v :: l'
  | S i', [] => JNull :: set_nth i' v []
  | S i', x :: l' => x :: set_nth i' v l'
  end.

(** An array cut or extended (with holes) to length [n]. *)
Fixpoint resize (n : nat) (l : list json) : list json :=
  match n, l with
  | O, _ => []
  | S n', [] => JNull :: resize n' []
  | S n', x :: l' => x :: resize n' l'
  end.

(** [o], as the file will store it, once its property [k] holds [v].  A
    named property of an array is not serialised, and neither is anything
    below it. *)
Definition store_prop (o : json) (k : string) (v : json) : json :=
  match o with
  | JObj m => JObj (insert k v m)
  | JArr l =>
      match array_index k with
      | Some i => JArr (set_nth i v l)
      | None => JArr l
      end
  | _ => o
  end.

(** [parent], as the file will store it, after the value it holds at
    [part] was changed in place into [child]. *)
Definition replace_child (parent : json) (part : string) (child : json) : json :=
  match parent with
  | JObj m => JObj (replace part child m)
  | JArr l =>
      match array_index part with
      | Some i => if Nat.ltb i (List.length l) then JArr (set_nth i child l) else JArr l
      | None => JArr l
      end
  | _ => parent
  end.

(** ** [String.prototype.split] with a string separator *)

Fixpoint split_from (sep : string) (skip : nat) (acc : string) (s : string)
  : list string :=
  match s with
  | "" => [acc]
  | String c s' =>
      match skip with
      | S n => split_from sep n acc s'
      | O =>
          if String.prefix sep s
          then acc :: split_from sep (String.length sep - 1) "" s'
          else split_from sep 0 (acc ++ String c "") s'
      end
  end.

Fixpoint code_units (s : string) : list string :=
  match s with
  | "" => []
  | String c s' => String c "" :: code_units s'
  end.

Definition split (key sep : string) : list string :=
  match sep with
  | "" => code_units key
  | _ => split_from sep 0 "" key
  end.

(** ** The instance and its backing file *)

(** The private fields of a [DataBase]. *)
Record DataBase : Type := {
  fileName : string;
  nestedEnabled : bool;
  separator : string
}.

(** The state an operation runs in: the instance, the content of its
    backing file ([None] is the empty file, which every operation reads as
    an empty mapping) and the number of [fs.writeFileSync] calls so far. *)
Record world : Type := {
  this : DataBase;
  fileContent : option json;
  writes : nat
}.

(** A computation reads and writes the world and returns or throws; the
    world it leaves is the one reached at that point. *)
Definition M (A : Type) : Type := world -> outcome A * world.

Definition ret {A} (a : A) : M A := fun w => (Return a, w).

Definition throw {A} (e : exn) : M A := fun w => (Throw e, w).

Definition bind {A B} (c : M A) (k : A -> M B) : M B :=
  fun w =>
    match c w with
    | (Return a, w') => k a w'
    | (Throw e, w') => (Throw e, w')
    end.

Definition lift {A} (o : outcome A) : M A := fun w => (o, w).

Declare Scope store_scope.
Delimit Scope store_scope with store.
Bind Scope store_scope with M.
Notation "x <- c ;; k" := (bind c (fun x => k))
  (at level 61, c at next level, right associativity) : store_scope.
Notation "c ;;; k" := (bind c (fun _ => k))
  (at level 61, right associativity) : store_scope.

(** [fs.readFileSync(this.#fileName, "utf8")] followed by
    [fileContent ? JSON.parse(fileContent) : {}]. *)
Definition readFile : M json :=
  fun w =>
    (Return match fileContent w with
            | Some file => file
            | None => JObj []
            end, w).

(** [fs.writeFileSync(this.#fileName, JSON.stringify(file, null, 2))]. *)
Definition writeFileSync (file : json) : M unit :=
  fun w =>
    (Return tt,
     {| this := this w; fileContent := Some file; writes := S (writes w) |}).

(** A parameter left out by the caller takes the instance's default. *)
Definition nestedEnabled_or_default (override : option bool) : M bool :=
  fun w =>
    (Return match override with
            | Some b => b
            | None => nestedEnabled (this w)
            end, w).

Definition separator_or_default (override : option string) : M string :=
  fun w =>
    (Return match override with
            | Some s => s
            | None => separator (this w)
            end, w).

(** The constructor (lines 9-19): the fields are set, and the file is
    created with the empty mapping when there is none. *)
Definition new_DataBase (fileName : option string) (nestedEnabled : option bool)
    (separator : option string) (existing : option (option json)) : world :=
  let db := {| fileName := match fileName with Some f => f | None => "database.json" end;
               nestedEnabled := match nestedEnabled with Some b => b | None => true end;
               separator := match separator with Some s => s | None => ".." end |} in
  match existing with
  | Some content => {| this := db; fileContent := content; writes := 0 |}
  | None => {| this := db; fileContent := Some (JObj []); writes := 1 |}
  end.

(** The first two lines of every operation that takes a key. *)
Definition check_key (key : json) : outcome string :=
  if negb (truthy_json key) then Throw (DbError InvalidKey)
  else match key with
       | JStr k => Return k
       | _ => Throw (DbError InvalidKeyType)
       end.

(** [callbackOrValue] of [pull]: a function of the element, its index and
    the array, or a value. *)
Inductive callbackOrValue : Type :=
| Callback (f : json -> nat -> list json -> bool)
| Value (v : json).

(** [array.indexOf(callbackOrValue)]: the search is by [===], which no
    element read from the file satisfies against a function. *)
Fixpoint index_from (i : nat) (v : json) (array : list json) : option nat :=
  match array with
  | [] => None
  | x :: array' => if strict_equals x v then Some i else index_from (S i) v array'
  end.

Definition indexOf (array : list json) (c : callbackOrValue) : option nat :=
  match c with
  | Callback _ => None
  | Value v => index_from 0 v array
  end.

(** [array.splice(i, 1)]. *)
Fixpoint splice1 (i : nat) (array : list json) : list json :=
  match i, array with
  | _, [] => []
  | O, _ :: array' => array'
  | S i', x :: array' => x :: splice1 i' array'
  end.

(** The [reduce] of lines 339-352: the indexes of the matching elements,
    in increasing order. *)
Fixpoint indexes_from (i : nat) (c : callbackOrValue) (whole rest : list json)
  : list nat :=
  match rest with
  | [] => []
  | element :: rest' =>
      let hit := match c with
                 | Callback callback => callback element i whole
                 | Value value => strict_equals element value
                 end in
      if hit then i :: indexes_from (S i) c whole rest'
      else indexes_from (S i) c whole rest'
  end.

Definition indexesToRemove (c : callbackOrValue) (array : list json) : list nat :=
  indexes_from 0 c array array.

(** Lines 338-366 (and 395-423): the array after the removal, and whether
    anything was removed. *)
Definition pull_elements (c : callbackOrValue) (pullAll : bool)
    (array : list json) : bool * list json :=
  if pullAll then
    match indexesToRemove c array with
    | [] => (false, array)
    | indexes => (true, fold_left (fun a i => splice1 i a) (rev indexes) array)
    end
  else
    match indexOf array c with
    | Some index => (true, splice1 index array)
    | None => (false, array)
    end.

(** ** The operations *)

(** Assigning [v] to the [length] of an array makes the runtime convert [v]
    to a number ([ToNumber], which for a string reads a numeric literal) and
    check that it is a length.  For a number the check is written out in
    [array_length]; for any other value the conversion is the runtime's, and
    the development holds for every such conversion. *)
Class Runtime : Type := {
  ToLength : json -> outcome nat
}.

Section Store.

Context {runtime : Runtime}.

Definition array_length (v : json) : outcome nat :=
  match v with
  | JNum n =>
      if Z.leb 0 n && Z.ltb n 4294967296 then Return (Z.to_nat n)
      else Throw RangeError
  | _ => ToLength v
  end.

(** [o[k] = v] (the class body is strict code: assigning to a property of a
    primitive throws).  The result is [o] as the file will store it. *)
Definition set_prop (o : json) (k : string) (v : json) : outcome json :=
  match o with
  | JNull | JBool _ | JNum _ | JStr _ => Throw TypeError
  | JArr l =>
      if String.eqb k "length"
      then (n <- array_length v ;; Return (JArr (resize n l)))%outcome
      else Return (store_prop o k v)
  | JObj _ => Return (store_prop o k v)
  end.

(** What [o[k]] reads right after [o[k] = v] succeeded and gave [o']: the
    value assigned, except for the [length] of an array, which reads as a
    number. *)
Definition read_back (o' : json) (k : string) (v : json) : json :=
  match o' with
  | JArr l => if String.eqb k "length" then JNum (Z.of_nat (List.length l)) else v
  | _ => v
  end.

(** [delete o[k]], reached only when [o] has the own property [k].  In
    strict code deleting a property that cannot be deleted (the [length] of
    an array, anything of a string) throws; deleting an element of an array
    leaves a hole. *)
Definition delete_prop (o : json) (k : string) : outcome json :=
  match o with
  | JNull => Throw TypeError
  | JBool _ | JNum _ => Return o
  | JStr _ => Throw TypeError
  | JArr l =>
      if String.eqb k "length" then Throw TypeError
      else match array_index k with
           | Some i => Return (JArr (set_nth i JNull l))
           | None => Return o
           end
  | JObj m => Return (JObj (remove k m))
  end.

(** [keyParts[keyParts.length - 1]] when [keyParts] is empty is [undefined],
    which names the property ["undefined"].  (No operation gets there: the
    key is not empty, see [split_not_nil].) *)
Definition no_part : string := "undefined".

(** *** set (lines 29-54) *)

(** Lines 39-48.  The loop descends from [currentObject]; what it returns
    is [currentObject] after the assignment at the end of the path. *)
Fixpoint set_path (currentObject : json) (keyParts : list string) (value : json)
  : outcome json :=
  match keyParts with
  | [] => set_prop currentObject no_part value
  | part :: rest =>
      match rest with
      | [] => set_prop currentObject part value
      | _ :: _ =>
          (x <- get_prop currentObject part ;;
           if negb (truthy x) then
             created <- set_prop currentObject part (JObj []) ;;
             child <- set_path (read_back created part (JObj [])) rest value ;;
             Return (replace_child created part child)
           else if negb (typeof_object x) then
             Throw (DbError (CannotCreateProperty part (typeof x)))
           else
             match x with
             | Some next =>
                 child <- set_path next rest value ;;
                 Return (replace_child currentObject part child)
             | None => Throw TypeError
             end)%outcome
      end
  end.

Definition set (key value : json) (nestedEnabled : option bool)
    (separator : option string) : M unit :=
  (nestedEnabled <- nestedEnabled_or_default nestedEnabled ;;
   separator <- separator_or_default separator ;;
   key <- lift (check_key key) ;;
   file <- readFile ;;
   file <- lift (if nestedEnabled : bool
                 then set_path file (split key separator) value
                 else set_prop file key value) ;;
   writeFileSync file)%store.

(** *** get (lines 64-84) and fetch (lines 94-99) *)

(** Lines 74-80.  ([undefined.hasOwnProperty] would throw; a property the
    object has never reads as [undefined].) *)
Fixpoint get_path (currentValue : jsvalue) (keyParts : list string)
  : outcome jsvalue :=
  match keyParts with
  | [] => Return currentValue
  | part :: rest =>
      match currentValue with
      | None => Throw TypeError
      | Some o =>
          (own <- has_own o part ;;
           if negb own then Return undefined
           else
             x <- get_prop o part ;;
             get_path x rest)%outcome
      end
  end.

Definition get (key : json) (nestedEnabled : option bool)
    (separator : option string) : M jsvalue :=
  (nestedEnabled <- nestedEnabled_or_default nestedEnabled ;;
   separator <- separator_or_default separator ;;
   key <- lift (check_key key) ;;
   file <- readFile ;;
   lift (if nestedEnabled : bool
         then get_path (Some file) (split key separator)
         else get_prop file key))%store.

Definition fetch (key : json) (nestedEnabled : option bool)
    (separator : option string) : M jsvalue :=
  (nestedEnabled <- nestedEnabled_or_default nestedEnabled ;;
   separator <- separator_or_default separator ;;
   _ <- lift (check_key key) ;;
   get key (Some nestedEnabled) (Some separator))%store.

(** *** delete (lines 109-139) *)

(** Lines 126-131 and 133-137: [None] when the method returns [false]
    without deleting, otherwise [currentValue] after the deletion. *)
Definition delete_own (currentValue : json) (lastPart : string)
  : outcome (option json) :=
  (own <- has_own currentValue lastPart ;;
   if own : bool then
     deleted <- delete_prop currentValue lastPart ;;
     Return (Some deleted)
   else Return None)%outcome.

(** Lines 119-131. *)
Fixpoint delete_path (currentValue : json) (keyParts : list string)
  : outcome (option json) :=
  match keyParts with
  | [] => delete_own currentValue no_part
  | part :: rest =>
      match rest with
      | [] => delete_own currentValue part
      | _ :: _ =>
          (own <- has_own currentValue part ;;
           if negb own then Return None
           else
             x <- get_prop currentValue part ;;
             match x with
             | Some next =>
                 r <- delete_path next rest ;;
                 Return (option_map (replace_child currentValue part) r)
             | None => Throw TypeError
             end)%outcome
      end
  end.

Definition delete (key : json) (nestedEnabled : option bool)
    (separator : option string) : M bool :=
  (nestedEnabled <- nestedEnabled_or_default nestedEnabled ;;
   separator <- separator_or_default separator ;;
   key <- lift (check_key key) ;;
   file <- readFile ;;
   r <- lift (if nestedEnabled : bool
              then delete_path file (split key separator)
              else delete_own file key) ;;
   match r with
   | Some file => writeFileSync file ;;; ret true
   | None => ret false
   end)%store.

(** *** has (lines 149-155) *)

Definition has (key : json) (nestedEnabled : option bool)
    (separator : option string) : M bool :=
  (nestedEnabled <- nestedEnabled_or_default nestedEnabled ;;
   separator <- separator_or_default separator ;;
   _ <- lift (check_key key) ;;
   v <- get key (Some nestedEnabled) (Some separator) ;;
   if truthy v then ret true else ret false)%store.

(** *** add (lines 165-204) and subtract (lines 214-253) *)

(** The loop of lines 177-185, which [subtract] (226-234) and [push]
    (274-282) repeat word for word; [last] is what the method does at the
    last part. *)
Fixpoint create_path (last : json -> string -> outcome json)
    (currentObject : json) (keyParts : list string) : outcome json :=
  match keyParts with
  | [] => last currentObject no_part
  | part :: rest =>
      match rest with
      | [] => last currentObject part
      | _ :: _ =>
          (own <- has_own currentObject part ;;
           if negb own then
             created <- set_prop currentObject part (JObj []) ;;
             child <- create_path last (read_back created part (JObj [])) rest ;;
             Return (replace_child created part child)
           else
             x <- get_prop currentObject part ;;
             if negb (typeof_object x) then
               Throw (DbError (CannotCreateProperty part (typeof x)))
             else
               match x with
               | Some next =>
                   child <- create_path last next rest ;;
                   Return (replace_child currentObject part child)
               | None => Throw TypeError
               end)%outcome
      end
  end.

(** Lines 187-193 ([sign] is [1]) and 236-242 ([sign] is [-1]). *)
Definition add_last (sign : Z) (key : string) (value : Z)
    (currentObject : json) (lastPart : string) : outcome json :=
  (x <- get_prop currentObject lastPart ;;
   if negb (truthy x) then set_prop currentObject lastPart (JNum (sign * value))
   else
     match x with
     | Some (JNum n) => set_prop currentObject lastPart (JNum (n + sign * value))
     | _ => Throw (DbError (NonNumericTarget key))
     end)%outcome.

(** Lines 195-200 and 244-249. *)
Definition add_plain (sign : Z) (key : string) (value : Z) (file : json)
  : outcome json :=
  (own <- has_own file key ;;
   if negb own then set_prop file key (JNum (sign * value))
   else
     x <- get_prop file key ;;
     match x with
     | Some (JNum n) => set_prop file key (JNum (n + sign * value))
     | _ => Throw (DbError (NonNumericTarget key))
     end)%outcome.

Definition check_number (value : json) : outcome Z :=
  match value with
  | JNum n => Return n
  | _ => Throw (DbError InvalidValueType)
  end.

Definition add_signed (sign : Z) (key value : json) (nestedEnabled : option bool)
    (separator : option string) : M unit :=
  (nestedEnabled <- nestedEnabled_or_default nestedEnabled ;;
   separator <- separator_or_default separator ;;
   key <- lift (check_key key) ;;
   value <- lift (check_number value) ;;
   file <- readFile ;;
   file <- lift (if nestedEnabled : bool
                 then create_path (add_last sign key value) file (split key separator)
                 else add_plain sign key value file) ;;
   writeFileSync file)%store.

(** [add] is declared [async]: its body runs to the end when it is called,
    and what it throws rejects the promise it returns. *)
Definition add : json -> json -> option bool -> option string -> M unit :=
  add_signed 1.

Definition subtract : json -> json -> option bool -> option string -> M unit :=
  add_signed (-1).

(** *** push (lines 263-308) *)

(** Lines 284-295. *)
Definition push_last (key : string) (value : json)
    (currentObject : json) (lastPart : string) : outcome json :=
  if negb (truthy_json currentObject) || negb (typeof_object (Some currentObject))
  then Throw (DbError (CannotPush key))
  else
    (x <- get_prop currentObject lastPart ;;
     target <- (if negb (truthy x) then
                  created <- set_prop currentObject lastPart (JArr []) ;;
                  Return (created, read_back created lastPart (JArr []))
                else if negb (isArray x) then Throw (DbError (CannotPush key))
                else match x with
                     | Some array => Return (currentObject, array)
                     | None => Throw TypeError
                     end) ;;
     match snd target with
     | JArr array => Return (replace_child (fst target) lastPart (JArr (array ++ [value])))
     | _ => Throw TypeError
     end)%outcome.

(** Lines 297-304. *)
Definition push_plain (key : string) (value : json) (file : json) : outcome json :=
  (own <- has_own file key ;;
   if negb own then set_prop file key (JArr [value])
   else
     x <- get_prop file key ;;
     match x with
     | Some (JArr array) => Return (replace_child file key (JArr (array ++ [value])))
     | _ => Throw (DbError (CannotPush key))
     end)%outcome.

Definition push (key value : json) (nestedEnabled : option bool)
    (separator : option string) : M unit :=
  (nestedEnabled <- nestedEnabled_or_default nestedEnabled ;;
   separator <- separator_or_default separator ;;
   key <- lift (check_key key) ;;
   file <- readFile ;;
   file <- lift (if nestedEnabled : bool
                 then create_path (push_last key value) file (split key separator)
                 else push_plain key value file) ;;
   writeFileSync file)%store.

(** *** pull (lines 320-430) *)

(** The test of lines 331-333 and 388-390, then the array of line 335. *)
Definition array_at (key : string) (currentObject : json) (part : string)
  : outcome (list json) :=
  (own <- has_own currentObject part ;;
   if negb own then Throw (DbError (CannotPull key))
   else
     x <- get_prop currentObject part ;;
     match x with
     | Some (JArr array) => Return array
     | _ => Throw (DbError (CannotPull key))
     end)%outcome.

(** The test of lines 373-375, then [currentObject[part]]. *)
Definition object_at (key : string) (currentObject : json) (part : string)
  : outcome json :=
  (own <- has_own currentObject part ;;
   if negb own then Throw (DbError (CannotPull key))
   else
     x <- get_prop currentObject part ;;
     if negb (typeof_object x) then Throw (DbError (CannotPull key))
     else match x with
          | Some next => Return next
          | None => Throw TypeError
          end)%outcome.

(** Lines 327-382.  Every frame of the recursion writes the whole [file],
    which it shares with the frames above it: [file] rebuilds the document
    from [currentObject] as the removal left it.  The result is what the
    frame returns, with [currentObject] after the removal.  (With no part
    at all the recursion would only ever throw; the key is not empty, see
    [split_not_nil].) *)
Fixpoint traverseAndPull (key : string) (c : callbackOrValue) (pullAll : bool)
    (file : json -> json) (currentObject : json) (keyParts : list string)
  : M (bool * json) :=
  match keyParts with
  | [] => throw (DbError (CannotPull key))
  | part :: rest =>
      match rest with
      | [] =>
          (array <- lift (array_at key currentObject part) ;;
           let r := pull_elements c pullAll array in
           let current := replace_child currentObject part (JArr (snd r)) in
           (if fst r then writeFileSync (file current) else ret tt) ;;;
           ret (fst r, current))%store
      | _ :: _ =>
          (next <- lift (object_at key currentObject part) ;;
           r <- traverseAndPull key c pullAll
                  (fun child => file (replace_child currentObject part child))
                  next rest ;;
           let current := replace_child currentObject part (snd r) in
           (if fst r then writeFileSync (file current) else ret tt) ;;;
           ret (fst r, current))%store
      end
  end.

Definition pull (key : json) (c : callbackOrValue) (pullAll : option bool)
    (nestedEnabled : option bool) (separator : option string) : M bool :=
  (let pullAll := match pullAll with Some b => b | None => false end in
   nestedEnabled <- nestedEnabled_or_default nestedEnabled ;;
   separator <- separator_or_default separator ;;
   key <- lift (check_key key) ;;
   file <- readFile ;;
   if nestedEnabled : bool then
     r <- traverseAndPull key c pullAll (fun f => f) file (split key separator) ;;
     ret (fst r)
   else
     array <- lift (array_at key file key) ;;
     let r := pull_elements c pullAll array in
     (if fst r then writeFileSync (replace_child file key (JArr (snd r)))
      else ret tt) ;;;
     ret (fst r))%store.

(** *** all (lines 437-449) and reset (lines 455-457) *)

Definition indexes (n : nat) : list string :=
  map (fun i => string_of_N (N.of_nat i)) (seq 0 n).

(** [Object.keys(file)]. *)
Definition keys (file : json) : outcome (list string) :=
  match file with
  | JNull => Throw TypeError
  | JBool _ | JNum _ => Return []
  | JStr s => Return (indexes (String.length s))
  | JArr l => Return (indexes (List.length l))
  | JObj m => Return (map fst m)
  end.

(** Lines 444-446: the pairs [{ ID: key, data: file[key] }]. *)
Fixpoint entries (file : json) (keys : list string)
  : outcome (list (string * jsvalue)) :=
  match keys with
  | [] => Return []
  | key :: keys' =>
      (data <- get_prop file key ;;
       result <- entries file keys' ;;
       Return ((key, data) :: result))%outcome
  end.

Definition all : M (list (string * jsvalue)) :=
  (file <- readFile ;;
   lift (keys <- keys file ;; entries file keys)%outcome)%store.

Definition reset : M unit := writeFileSync (JObj []).

(** ** Calls *)

(** A call of a method of the class, with the arguments the caller gives;
    [None] stands for a parameter left out. *)
Inductive call : Type :=
| Set_ (key value : json) (nestedEnabled : option bool) (separator : option string)
| Get (key : json) (nestedEnabled : option bool) (separator : option string)
| Fetch (key : json) (nestedEnabled : option bool) (separator : option string)
| Delete (key : json) (nestedEnabled : option bool) (separator : option string)
| Has (key : json) (nestedEnabled : option bool) (separator : option string)
| Add (key value : json) (nestedEnabled : option bool) (separator : option string)
| Subtract (key value : json) (nestedEnabled : option bool) (separator : option string)
| Push (key value : json) (nestedEnabled : option bool) (separator : option string)
| Pull (key : json) (c : callbackOrValue) (pullAll nestedEnabled : option bool)
       (separator : option string)
| All
| Reset.

(** What a call returns. *)
Inductive answer : Type :=
| Nothing
| Boolean (b : bool)
| Got (v : jsvalue)
| Entries (l : list (string * jsvalue)).

Definition answering {A} (f : A -> answer) (c : M A) : M answer :=
  (a <- c ;; ret (f a))%store.

Definition run (c : call) : M answer :=
  match c with
  | Set_ key value n s => answering (fun _ => Nothing) (set key value n s)
  | Get key n s => answering Got (get key n s)
  | Fetch key n s => answering Got (fetch key n s)
  | Delete key n s => answering Boolean (delete key n s)
  | Has key n s => answering Boolean (has key n s)
  | Add key value n s => answering (fun _ => Nothing) (add key value n s)
  | Subtract key value n s => answering (fun _ => Nothing) (subtract key value n s)
  | Push key value n s => answering (fun _ => Nothing) (push key value n s)
  | Pull key c pullAll n s => answering Boolean (pull key c pullAll n s)
  | All => answering Entries all
  | Reset => answering (fun _ => Nothing) reset
  end.

End Store.

(** ** The vocabulary of the properties *)

(** The flag and the separator a call resolves to, and the parts of the key
    it walks. *)
Definition resolved_nestedEnabled (n : option bool) (w : world) : bool :=
  match n with Some b => b | None => nestedEnabled (this w) end.

Definition resolved_separator (s : option string) (w : world) : string :=
  match s with Some sep => sep | None => separator (this w) end.

Definition path_of (k : string) (n : option bool) (s : option string) (w : world)
  : list string :=
  if resolved_nestedEnabled n w then split k (resolved_separator s w) else [k].

(** The document a call reads. *)
Definition document (w : world) : json :=
  match fileContent w with Some file => file | None => JObj [] end.


(** The world after a write of [file]. *)
Definition written (file : json) (w : world) : world :=
  {| this := this w; fileContent := Some file; writes := S (writes w) |}.

(** A call that computes the new document and writes it at the end. *)
Definition writing (o : outcome json) (w : world) : outcome unit * world :=
  match o with
  | Return file => (Return tt, written file w)
  | Throw e => (Throw e, w)
  end.

(** The operations that create the mappings a path is missing, with what
    they are given besides the key. *)
Inductive creator : Type :=
| BySet (value : json)
| ByAdd (amount : Z)
| BySubtract (amount : Z)
| ByPush (value : json).

Definition call_of (c : creator) (k : string) (n : option bool) (s : option string)
  : call :=
  match c with
  | BySet value => Set_ (JStr k) value n s
  | ByAdd amount => Add (JStr k) (JNum amount) n s
  | BySubtract amount => Subtract (JStr k) (JNum amount) n s
  | ByPush value => Push (JStr k) value n s
  end.

(** The walk each of them makes in nested mode. *)
Definition walk_of {runtime : Runtime} (c : creator) (k : string)
  : json -> list string -> outcome json :=
  match c with
  | BySet value => fun current keyParts => set_path current keyParts value
  | ByAdd amount => create_path (add_last 1 k amount)
  | BySubtract amount => create_path (add_last (-1) k amount)
  | ByPush value => create_path (push_last k value)
  end.



(** The value reached from [current] by descending through mappings along
    [parts]. *)
Fixpoint reach (current : json) (parts : list string) : option json :=
  match parts with
  | [] => Some current
  | part :: rest =>
      match current with
      | JObj m =>
          match lookup part m with
          | Some next => reach next rest
          | None => None
          end
      | _ => None
      end
  end.

(** The key a call is given. *)
Definition key_of (c : call) : option json :=
  match c with
  | Set_ key _ _ _ | Get key _ _ | Fetch key _ _ | Delete key _ _ | Has key _ _
  | Add key _ _ _ | Subtract key _ _ _ | Push key _ _ _ | Pull key _ _ _ _ =>
      Some key
  | All | Reset => None
  end.

(** The first part of the key a call walks: the name of the entry of the
    document that the call works in. *)
Definition first_part (k : string) (n : option bool) (s : option string)
    (w : world) : string :=
  hd no_part (path_of k n s w).

(** [root] with the value that [before] leads to, through mappings,
    replaced by [new]. *)
Fixpoint graft (root : json) (before : list string) (new : json) : json :=
  match before with
  | [] => new
  | part :: rest =>
      match root with
      | JObj m =>
          match lookup part m with
          | Some next => JObj (replace part (graft next rest new) m)
          | None => root
          end
      | _ => root
      end
  end.

(** The number [add] and [subtract] start from at [lastPart]: what the
    mapping holds there when it is a number, and [0] when it holds
    nothing. *)
Definition amount_at (m : list (string * json)) (lastPart : string) : option Z :=
  match lookup lastPart m with
  | None => Some 0%Z
  | Some (JNum n) => Some n
  | Some _ => None
  end.

(** The array [push] appends to at [lastPart]: the one the mapping holds
    there, and the empty one when it holds nothing. *)
Definition array_at_or_new (m : list (string * json)) (lastPart : string)
  : option (list json) :=
  match lookup lastPart m with
  | None => Some []
  | Some (JArr array) => Some array
  | Some _ => None
  end.

(** Whether [pull] with [pullAll] takes the element at index [i] out. *)
Definition matches (c : callbackOrValue) (whole : list json) (i : nat)
    (element : json) : bool :=
  match c with
  | Callback callback => callback element i whole
  | Value value => strict_equals element value
  end.

(** The elements of [rest], which stand in [whole] from index [i] on, that
    do not match. *)
Fixpoint remaining_from (i : nat) (c : callbackOrValue) (whole rest : list json)
  : list json :=
  match rest with
  | [] => []
  | element :: rest' =>
      if matches c whole i element then remaining_from (S i) c whole rest'
      else element :: remaining_from (S i) c whole rest'
  end.


(** What each of the creating operations does at the last part, in nested
    mode. *)
Definition terminal_of {runtime : Runtime} (c : creator) (k : string)
  : json -> string -> outcome json :=
  match c with
  | BySet value => fun currentObject lastPart => set_prop currentObject lastPart value
  | ByAdd amount => add_last 1 k amount
  | BySubtract amount => add_last (-1) k amount
  | ByPush value => push_last k value
  end.

(** The methods that write whenever they return. *)
Definition always_writes (c : call) : bool :=
  match c with
  | Set_ _ _ _ _ | Add _ _ _ _ | Subtract _ _ _ _ | Push _ _ _ _ | Reset => true
  | _ => false
  end.

(** The flag and the separator a call passes. *)
Definition nested_of (c : call) : option bool :=
  match c with
  | Set_ _ _ n _ | Get _ n _ | Fetch _ n _ | Delete _ n _ | Has _ n _
  | Add _ _ n _ | Subtract _ _ n _ | Push _ _ n _ | Pull _ _ _ n _ => n
  | All | Reset => None
  end.

Definition separator_of (c : call) : option string :=
  match c with
  | Set_ _ _ _ s | Get _ _ s | Fetch _ _ s | Delete _ _ s | Has _ _ s
  | Add _ _ _ s | Subtract _ _ _ s | Push _ _ _ s | Pull _ _ _ _ s => s
  | All | Reset => None
  end.

(** [after] is a mapping that holds what the mapping [m] holds, except
    perhaps at [part]. *)
Definition differs_at (part : string) (m : list (string * json)) (after : json)
  : Prop :=
  exists m', after = JObj m' /\
             forall other, other <> part -> lookup other m' = lookup other m.


(** What a computation may do to the world. *)
Definition writes_nothing {A} (c : M A) : Prop :=
  forall w, snd (c w) = w.

Definition keeps_instance {A} (c : M A) : Prop :=
  forall w, this (snd (c w)) = this w.

Definition throws_before_writing {A} (c : M A) : Prop :=
  forall w e, fst (c w) = Throw e -> snd (c w) = w.

Definition always_returns {A} (c : M A) : Prop :=
  forall w, exists a, fst (c w) = Return a.

(** ** Worked examples *)

(** A conversion to run the examples with.  [null], the booleans and the
    empty array need no numeric literal to be read, and a mapping reads as
    [NaN]; a string or a non-empty array is refused here whatever it reads
    as, and no example assigns one to a length. *)
Definition example_runtime : Runtime :=
  {| ToLength := fun v =>
       match v with
       | JNull | JBool false | JArr [] => Return 0
       | JBool true => Return 1
       | _ => Throw RangeError
       end |}.

(** An instance made by [new DataBase()] over a file that holds [file]. *)
Definition opened (file : json) : world :=
  new_DataBase None None None (Some (Some file)).

(** [(element) => element > 10], the callback of the example in the
    documentation of [pull], as it answers on numbers. *)
Definition greater_than_10 : callbackOrValue :=
  Callback (fun element _ _ =>
              match element with
              | JNum n => Z.ltb 10 n
              | _ => false
              end).

(** * Properties *)

(** ** The separator and the indexes, on examples *)

Example split_nested : split "a..b..c" ".." = ["a"; "b"; "c"].
Proof. reflexivity. Qed.

Example split_overlap : split "a...b" ".." = ["a"; ".b"].
Proof. reflexivity. Qed.

Example split_edges : split "..a.." ".." = [""; "a"; ""].
Proof. reflexivity. Qed.

Example split_absent : split "user.name" ".." = ["user.name"].
Proof. reflexivity. Qed.

Example split_empty_separator : split "ab" "" = ["a"; "b"].
Proof. reflexivity. Qed.

Example array_index_examples :
  map array_index ["0"; "7"; "10"; "01"; ""; "x"; "4294967295"; "length"]
  = [Some 0; Some 7; Some 10; None; None; None; None; None]%nat.
Proof. reflexivity. Qed.

(** ** Association lists *)

Lemma has_key_lookup (k : string) (m : list (string * json)) :
  has_key k m = true <-> exists v, lookup k m = Some v.
Proof.
  unfold has_key. destruct (lookup k m) as [v|].
  - split; [eauto | reflexivity].
  - split; [discriminate | intros [v H]; discriminate].
Qed.

Lemma lookup_replace_same (k : string) (v : json) (m : list (string * json)) :
  has_key k m = true -> lookup k (replace k v m) = Some v.
Proof.
  unfold has_key. induction m as [|[k' v'] m IH]; simpl.
  - discriminate.
  - destruct (String.eqb k k') eqn:E; simpl; rewrite E; auto.
Qed.

Lemma lookup_app_new (k : string) (v : json) (m : list (string * json)) :
  has_key k m = false -> lookup k (m ++ [(k, v)]) = Some v.
Proof.
  unfold has_key. induction m as [|[k' v'] m IH]; simpl.
  - now rewrite String.eqb_refl.
  - destruct (String.eqb k k'); [discriminate | exact IH].
Qed.

Lemma lookup_insert_same (k : string) (v : json) (m : list (string * json)) :
  lookup k (insert k v m) = Some v.
Proof.
  unfold insert. destruct (has_key k m) eqn:E.
  - now apply lookup_replace_same.
  - now apply lookup_app_new.
Qed.

Lemma has_key_insert_same (k : string) (v : json) (m : list (string * json)) :
  has_key k (insert k v m) = true.
Proof. unfold has_key. now rewrite lookup_insert_same. Qed.

Lemma has_key_replace (k k' : string) (v : json) (m : list (string * json)) :
  has_key k (replace k' v m) = has_key k m.
Proof.
  unfold has_key. induction m as [|[k0 v0] m IH]; simpl; auto.
  destruct (String.eqb k' k0) eqn:E; simpl.
  - destruct (String.eqb k k0); auto.
  - destruct (String.eqb k k0); auto.
Qed.


(** ** The separator *)



Lemma check_key_string (k : string) : k <> "" -> check_key (JStr k) = Return k.
Proof.
  intros H. unfold check_key. simpl.
  destruct (String.eqb k "") eqn:E; [apply String.eqb_eq in E; contradiction | reflexivity].
Qed.

(** ** What a computation may do to the world *)

Create HintDb store.

Lemma writes_nothing_ret {A} (a : A) : writes_nothing (ret a).
Proof. intro; reflexivity. Qed.

Lemma writes_nothing_throw {A} (e : exn) : writes_nothing (@throw A e).
Proof. intro; reflexivity. Qed.

Lemma writes_nothing_lift {A} (o : outcome A) : writes_nothing (lift o).
Proof. intro; reflexivity. Qed.

Lemma writes_nothing_readFile : writes_nothing readFile.
Proof. intro; reflexivity. Qed.

Lemma writes_nothing_nestedEnabled (o : option bool) :
  writes_nothing (nestedEnabled_or_default o).
Proof. intro; reflexivity. Qed.

Lemma writes_nothing_separator (o : option string) :
  writes_nothing (separator_or_default o).
Proof. intro; reflexivity. Qed.

Lemma writes_nothing_bind {A B} (c : M A) (k : A -> M B) :
  writes_nothing c -> (forall a, writes_nothing (k a)) -> writes_nothing (bind c k).
Proof.
  intros Hc Hk w. unfold bind. specialize (Hc w).
  destruct (c w) as [[a|e] w']; simpl in *; subst; auto. apply Hk.
Qed.

Lemma writes_nothing_if {A} (b : bool) (c d : M A) :
  writes_nothing c -> writes_nothing d -> writes_nothing (if b then c else d).
Proof. destruct b; auto. Qed.

#[local] Hint Resolve writes_nothing_ret writes_nothing_throw writes_nothing_lift
  writes_nothing_readFile writes_nothing_nestedEnabled writes_nothing_separator
  writes_nothing_bind writes_nothing_if : store.

Lemma keeps_instance_pure {A} (c : M A) : writes_nothing c -> keeps_instance c.
Proof. intros H w. now rewrite H. Qed.

Lemma keeps_instance_write (file : json) : keeps_instance (writeFileSync file).
Proof. intro; reflexivity. Qed.

Lemma keeps_instance_bind {A B} (c : M A) (k : A -> M B) :
  keeps_instance c -> (forall a, keeps_instance (k a)) -> keeps_instance (bind c k).
Proof.
  intros Hc Hk w. unfold bind. specialize (Hc w).
  destruct (c w) as [[a|e] w']; simpl in *; auto. now rewrite Hk.
Qed.

Lemma keeps_instance_if {A} (b : bool) (c d : M A) :
  keeps_instance c -> keeps_instance d -> keeps_instance (if b then c else d).
Proof. destruct b; auto. Qed.

#[local] Hint Resolve keeps_instance_pure keeps_instance_write keeps_instance_bind
  keeps_instance_if : store.

Lemma always_returns_ret {A} (a : A) : always_returns (ret a).
Proof. intro w; now exists a. Qed.

Lemma always_returns_write (file : json) : always_returns (writeFileSync file).
Proof. intro w; now exists tt. Qed.

Lemma always_returns_bind {A B} (c : M A) (k : A -> M B) :
  always_returns c -> (forall a, always_returns (k a)) -> always_returns (bind c k).
Proof.
  intros Hc Hk w. unfold bind. destruct (Hc w) as [a Ha].
  destruct (c w) as [[a'|e] w']; simpl in *; [apply Hk | discriminate].
Qed.

Lemma always_returns_if {A} (b : bool) (c d : M A) :
  always_returns c -> always_returns d -> always_returns (if b then c else d).
Proof. destruct b; auto. Qed.

#[local] Hint Resolve always_returns_ret always_returns_write always_returns_bind
  always_returns_if : store.

Lemma throws_before_writing_pure {A} (c : M A) :
  writes_nothing c -> throws_before_writing c.
Proof. intros H w e _. apply H. Qed.

Lemma throws_before_writing_total {A} (c : M A) :
  always_returns c -> throws_before_writing c.
Proof. intros H w e He. destruct (H w) as [a Ha]. congruence. Qed.

(** After a step that writes nothing, the rest decides. *)
Lemma throws_before_writing_bind {A B} (c : M A) (k : A -> M B) :
  writes_nothing c -> (forall a, throws_before_writing (k a)) ->
  throws_before_writing (bind c k).
Proof.
  intros Hc Hk w e. unfold bind. specialize (Hc w).
  destruct (c w) as [[a|e'] w']; simpl in *; subst; auto. apply Hk.
Qed.

(** After a step that may write, nothing may throw any more. *)
Lemma throws_before_writing_then {A B} (c : M A) (k : A -> M B) :
  throws_before_writing c -> (forall a, always_returns (k a)) ->
  throws_before_writing (bind c k).
Proof.
  intros Hc Hk w e. unfold bind. specialize (Hc w).
  destruct (c w) as [[a|e'] w'] eqn:E; simpl in *.
  - intros He. destruct (Hk a w') as [b Hb]. congruence.
  - intros _. now apply (Hc e').
Qed.

#[local] Hint Resolve throws_before_writing_pure throws_before_writing_total
  throws_before_writing_bind : store.

Section Properties.

Context {runtime : Runtime}.

(** ** The operations that only read *)

Lemma get_writes_nothing (key : json) (n : option bool) (s : option string) :
  writes_nothing (get key n s).
Proof. unfold get. auto 20 with store. Qed.

#[local] Hint Resolve get_writes_nothing : store.

Lemma fetch_writes_nothing (key : json) (n : option bool) (s : option string) :
  writes_nothing (fetch key n s).
Proof. unfold fetch. auto 20 with store. Qed.

Lemma has_writes_nothing (key : json) (n : option bool) (s : option string) :
  writes_nothing (has key n s).
Proof. unfold has. auto 20 with store. Qed.

Lemma all_writes_nothing : writes_nothing all.
Proof. unfold all. auto with store. Qed.

#[local] Hint Resolve fetch_writes_nothing has_writes_nothing all_writes_nothing
  : store.

(** C10.  [get], [fetch], [has] and [all] never write to the backing file:
    whatever the key, the flags and the document, and whether the call
    returns or throws, the world after the call (the content of the file
    and the number of writes made to it) is the world before it. *)
Theorem readers_never_write (key : json) (n : option bool) (s : option string)
    (w : world) :
  snd (get key n s w) = w /\
  snd (fetch key n s w) = w /\
  snd (has key n s w) = w /\
  snd (all w) = w.
Proof.
  split; [apply get_writes_nothing |].
  split; [apply fetch_writes_nothing |].
  split; [apply has_writes_nothing | apply all_writes_nothing].
Qed.

(** ** Failing before the write *)

Ltac through_reads lemma :=
  repeat (apply lemma; [solve [auto with store] | intros ?]).

Lemma traverseAndPull_last (key : string) (c : callbackOrValue) (pullAll : bool)
    (file : json -> json) (currentObject : json) (part : string) :
  traverseAndPull key c pullAll file currentObject [part] =
  (array <- lift (array_at key currentObject part) ;;
   let r := pull_elements c pullAll array in
   let current := replace_child currentObject part (JArr (snd r)) in
   (if fst r then writeFileSync (file current) else ret tt) ;;;
   ret (fst r, current))%store.
Proof. reflexivity. Qed.

Lemma traverseAndPull_step (key : string) (c : callbackOrValue) (pullAll : bool)
    (file : json -> json) (currentObject : json) (part part' : string)
    (rest : list string) :
  traverseAndPull key c pullAll file currentObject (part :: part' :: rest) =
  (next <- lift (object_at key currentObject part) ;;
   r <- traverseAndPull key c pullAll
          (fun child => file (replace_child currentObject part child))
          next (part' :: rest) ;;
   let current := replace_child currentObject part (snd r) in
   (if fst r then writeFileSync (file current) else ret tt) ;;;
   ret (fst r, current))%store.
Proof. reflexivity. Qed.

Lemma traverseAndPull_throws_before_writing (key : string) (c : callbackOrValue)
    (pullAll : bool) (keyParts : list string) :
  forall file currentObject,
    throws_before_writing (traverseAndPull key c pullAll file currentObject keyParts).
Proof.
  induction keyParts as [|part rest IH]; intros file currentObject.
  - cbn. auto with store.
  - destruct rest as [|part' rest'].
    + rewrite traverseAndPull_last. cbv zeta.
      apply throws_before_writing_bind; [auto with store | intros array].
      apply throws_before_writing_total. auto 10 with store.
    + rewrite traverseAndPull_step. cbv zeta.
      apply throws_before_writing_bind; [auto with store | intros next].
      apply throws_before_writing_then; [apply IH | intros r].
      auto 10 with store.
Qed.

Lemma set_throws_before_writing (key value : json) (n : option bool)
    (s : option string) :
  throws_before_writing (set key value n s).
Proof. unfold set. auto 20 with store. Qed.

Lemma delete_throws_before_writing (key : json) (n : option bool)
    (s : option string) :
  throws_before_writing (delete key n s).
Proof.
  unfold delete. through_reads @throws_before_writing_bind.
  match goal with |- throws_before_writing (match ?r with _ => _ end) => destruct r end;
    auto 10 with store.
Qed.

Lemma add_signed_throws_before_writing (sign : Z) (key value : json)
    (n : option bool) (s : option string) :
  throws_before_writing (add_signed sign key value n s).
Proof. unfold add_signed. auto 20 with store. Qed.

Lemma push_throws_before_writing (key value : json) (n : option bool)
    (s : option string) :
  throws_before_writing (push key value n s).
Proof. unfold push. auto 20 with store. Qed.

Lemma pull_throws_before_writing (key : json) (c : callbackOrValue)
    (pullAll n : option bool) (s : option string) :
  throws_before_writing (pull key c pullAll n s).
Proof.
  unfold pull. cbv zeta. through_reads @throws_before_writing_bind.
  match goal with |- throws_before_writing (if ?b then _ else _) => destruct b end.
  - apply throws_before_writing_then;
      [apply traverseAndPull_throws_before_writing | auto with store].
  - apply throws_before_writing_bind; [auto with store | intros array].
    apply throws_before_writing_total. auto 10 with store.
Qed.

(** Whatever a call throws, it throws before it writes. *)
Lemma run_throws_before_writing (c : call) : throws_before_writing (run c).
Proof.
  destruct c; cbn [run]; unfold answering, add, subtract, reset;
    (apply throws_before_writing_then; [| auto with store]).
  - apply set_throws_before_writing.
  - auto with store.
  - auto with store.
  - apply delete_throws_before_writing.
  - auto with store.
  - apply add_signed_throws_before_writing.
  - apply add_signed_throws_before_writing.
  - apply push_throws_before_writing.
  - apply pull_throws_before_writing.
  - auto with store.
  - auto with store.
Qed.

(** C9.  A call of any operation that fails with a [DatabaseError] (an
    invalid key, a value that is not a number, a property that cannot be
    created, a target that is not a number or not an array) leaves the
    world as it was: the content of the backing file is unchanged and no
    write has been made. *)
Theorem DatabaseError_before_write (c : call) (w : world) (e : DatabaseError) :
  fst (run c w) = Throw (DbError e) -> snd (run c w) = w.
Proof. apply run_throws_before_writing. Qed.

(** ** The defaults of the instance *)

Lemma traverseAndPull_keeps_instance (key : string) (c : callbackOrValue)
    (pullAll : bool) (keyParts : list string) :
  forall file currentObject,
    keeps_instance (traverseAndPull key c pullAll file currentObject keyParts).
Proof.
  induction keyParts as [|part rest IH]; intros file currentObject.
  - cbn. auto with store.
  - destruct rest as [|part' rest'].
    + rewrite traverseAndPull_last. cbv zeta. auto 10 with store.
    + rewrite traverseAndPull_step. cbv zeta.
      apply keeps_instance_bind; [auto with store | intros next].
      apply keeps_instance_bind; [apply IH | intros r].
      auto 10 with store.
Qed.

Lemma delete_keeps_instance (key : json) (n : option bool) (s : option string) :
  keeps_instance (delete key n s).
Proof.
  unfold delete. through_reads @keeps_instance_bind.
  match goal with |- keeps_instance (match ?r with _ => _ end) => destruct r end;
    auto 10 with store.
Qed.

Lemma pull_keeps_instance (key : json) (c : callbackOrValue)
    (pullAll n : option bool) (s : option string) :
  keeps_instance (pull key c pullAll n s).
Proof.
  unfold pull. cbv zeta. through_reads @keeps_instance_bind.
  match goal with |- keeps_instance (if ?b then _ else _) => destruct b end.
  - apply keeps_instance_bind; [apply traverseAndPull_keeps_instance |].
    auto with store.
  - auto 10 with store.
Qed.

Lemma run_keeps_instance (c : call) : keeps_instance (run c).
Proof.
  destruct c; cbn [run]; unfold answering;
    (apply keeps_instance_bind; [| auto with store]).
  - unfold set. auto 20 with store.
  - auto with store.
  - auto with store.
  - apply delete_keeps_instance.
  - auto with store.
  - unfold add, add_signed. auto 20 with store.
  - unfold subtract, add_signed. auto 20 with store.
  - unfold push. auto 20 with store.
  - apply pull_keeps_instance.
  - auto with store.
  - unfold reset. auto with store.
Qed.

(** C8.  A call of any operation, with or without a flag or a separator of
    its own, leaves the instance as it was configured: its file name, its
    default nested-mode flag and its default separator.  So a call made
    afterwards without overrides resolves its flag and its separator to the
    defaults configured before, and any call made afterwards behaves as it
    does on the original instance over the file as the first call left
    it. *)
Theorem overrides_keep_defaults (c : call) (w : world) :
  let w' := snd (run c w) in
  this w' = this w /\
  fst (nestedEnabled_or_default None w') = Return (nestedEnabled (this w)) /\
  fst (separator_or_default None w') = Return (separator (this w)) /\
  forall later : call,
    run later w' =
    run later {| this := this w; fileContent := fileContent w'; writes := writes w' |}.
Proof.
  cbv zeta. pose proof (run_keeps_instance c w) as H.
  destruct (snd (run c w)) as [db content n]. cbn in *. subst db.
  repeat split.
Qed.

(** ** has and get *)

(** [has] is [get] followed by the test of its result. *)
Lemma has_get (key : json) (n : option bool) (s : option string) (w : world) :
  has key n s w =
  (match fst (get key n s w) with
   | Return v => Return (truthy v)
   | Throw e => Throw e
   end, w).
Proof.
  unfold has, get, bind, lift, ret, nestedEnabled_or_default,
    separator_or_default, readFile. cbn.
  destruct (check_key key) as [k|e]; cbn; [|reflexivity].
  match goal with |- context [if ?b then get_path _ _ else _] =>
    destruct (if b then get_path _ _ else _) as [v|e] end; cbn; [|reflexivity].
  now destruct (truthy v).
Qed.

(** C6.  [has(key)] returns [true] exactly when [get(key)], called with the
    same flag and separator, returns a truthy value; and it returns [false]
    when [get] returns [0], the empty string, [false], [null] or
    [undefined]. *)
Theorem has_iff_get_truthy (key : json) (n : option bool) (s : option string)
    (w : world) :
  (fst (has key n s w) = Return true <->
   exists v, fst (get key n s w) = Return v /\ truthy v = true) /\
  forall v,
    fst (get key n s w) = Return v ->
    In v [Some (JNum 0); Some (JStr ""); Some (JBool false); Some JNull; undefined] ->
    fst (has key n s w) = Return false.
Proof.
  rewrite has_get. cbn [fst]. split.
  - destruct (fst (get key n s w)) as [v|e].
    + split.
      * intros H. exists v. split; [reflexivity | congruence].
      * intros [v' [Hv Ht]]. congruence.
    + split; [discriminate | intros [v [Hv _]]; discriminate].
  - intros v Hv Hin. rewrite Hv.
    cbn in Hin. decompose [or] Hin; subst; try reflexivity; contradiction.
Qed.

(** ** set followed by get *)













(** ** Intermediate segments *)

Lemma set_path_more (currentObject : json) (part : string) (rest : list string)
    (value : json) :
  rest <> [] ->
  set_path currentObject (part :: rest) value =
  (x <- get_prop currentObject part ;;
   if negb (truthy x) then
     created <- set_prop currentObject part (JObj []) ;;
     child <- set_path (read_back created part (JObj [])) rest value ;;
     Return (replace_child created part child)
   else if negb (typeof_object x) then
     Throw (DbError (CannotCreateProperty part (typeof x)))
   else
     match x with
     | Some next =>
         child <- set_path next rest value ;;
         Return (replace_child currentObject part child)
     | None => Throw TypeError
     end)%outcome.
Proof. destruct rest; [contradiction | reflexivity]. Qed.

Lemma create_path_more (last : json -> string -> outcome json)
    (currentObject : json) (part : string) (rest : list string) :
  rest <> [] ->
  create_path last currentObject (part :: rest) =
  (own <- has_own currentObject part ;;
   if negb own then
     created <- set_prop currentObject part (JObj []) ;;
     child <- create_path last (read_back created part (JObj [])) rest ;;
     Return (replace_child created part child)
   else
     x <- get_prop currentObject part ;;
     if negb (typeof_object x) then
       Throw (DbError (CannotCreateProperty part (typeof x)))
     else
       match x with
       | Some next =>
           child <- create_path last next rest ;;
           Return (replace_child currentObject part child)
       | None => Throw TypeError
       end)%outcome.
Proof. destruct rest; [contradiction | reflexivity]. Qed.

Lemma reach_object (current : json) (parts : list string) (m : list (string * json)) :
  reach current parts = Some (JObj m) -> exists m', current = JObj m'.
Proof.
  destruct parts; cbn.
  - intros [= ->]. eauto.
  - destruct current; try discriminate. eauto.
Qed.

Lemma app_cons_not_nil {A} (l : list A) (x : A) (l' : list A) : l ++ x :: l' <> [].
Proof. destruct l; discriminate. Qed.

#[local] Hint Resolve app_cons_not_nil : store.


(** One step of either walk into a mapping that is there. *)
Lemma set_path_descend (m m' : list (string * json)) (part : string)
    (rest : list string) (value : json) :
  rest <> [] -> lookup part m = Some (JObj m') ->
  set_path (JObj m) (part :: rest) value =
  (child <- set_path (JObj m') rest value ;;
   Return (JObj (replace part child m)))%outcome.
Proof.
  intros Hrest Hnext. rewrite set_path_more by assumption.
  cbn [get_prop obind]. now rewrite Hnext.
Qed.

Lemma create_path_descend (last : json -> string -> outcome json)
    (m m' : list (string * json)) (part : string) (rest : list string) :
  rest <> [] -> lookup part m = Some (JObj m') ->
  create_path last (JObj m) (part :: rest) =
  (child <- create_path last (JObj m') rest ;;
   Return (JObj (replace part child m)))%outcome.
Proof.
  intros Hrest Hnext. rewrite create_path_more by assumption.
  cbn [has_own get_prop obind]. unfold has_key. now rewrite Hnext.
Qed.



Lemma walk_descend (c : creator) (k : string) (m m' : list (string * json))
    (part : string) (rest : list string) :
  rest <> [] -> lookup part m = Some (JObj m') ->
  walk_of c k (JObj m) (part :: rest) =
  (child <- walk_of c k (JObj m') rest ;;
   Return (JObj (replace part child m)))%outcome.
Proof.
  destruct c; cbn [walk_of]; auto using set_path_descend, create_path_descend.
Qed.











End Properties.

(** * More of the operations *)

Section Coverage.

Context {runtime : Runtime}.

#[local] Hint Resolve app_cons_not_nil : store.

(** ** Each method, as a function of the document *)

Lemma set_unfold (key value : json) (n : option bool) (s : option string)
    (w : world) :
  set key value n s w =
  match check_key key with
  | Return k =>
      writing (if resolved_nestedEnabled n w
               then set_path (document w) (split k (resolved_separator s w)) value
               else set_prop (document w) k value) w
  | Throw e => (Throw e, w)
  end.
Proof.
  unfold set, bind, lift, nestedEnabled_or_default, separator_or_default,
    readFile, writeFileSync. cbn [fst snd].
  destruct (check_key key) as [k|e]; [|reflexivity].
  fold (resolved_nestedEnabled n w) (resolved_separator s w) (document w).
  now destruct (if resolved_nestedEnabled n w then _ else _).
Qed.

Lemma get_unfold (key : json) (n : option bool) (s : option string) (w : world) :
  get key n s w =
  match check_key key with
  | Return k =>
      (if resolved_nestedEnabled n w
       then get_path (Some (document w)) (split k (resolved_separator s w))
       else get_prop (document w) k, w)
  | Throw e => (Throw e, w)
  end.
Proof.
  unfold get, bind, lift, nestedEnabled_or_default, separator_or_default,
    readFile. cbn [fst snd].
  now destruct (check_key key).
Qed.

Lemma add_signed_unfold (sign : Z) (key value : json) (n : option bool)
    (s : option string) (w : world) :
  add_signed sign key value n s w =
  match check_key key with
  | Return k =>
      match check_number value with
      | Return amount =>
          writing (if resolved_nestedEnabled n w
                   then create_path (add_last sign k amount) (document w)
                          (split k (resolved_separator s w))
                   else add_plain sign k amount (document w)) w
      | Throw e => (Throw e, w)
      end
  | Throw e => (Throw e, w)
  end.
Proof.
  unfold add_signed, bind, lift, nestedEnabled_or_default, separator_or_default,
    readFile, writeFileSync. cbn [fst snd].
  destruct (check_key key) as [k|e]; [|reflexivity].
  destruct (check_number value) as [amount|e]; [|reflexivity].
  fold (resolved_nestedEnabled n w) (resolved_separator s w) (document w).
  now destruct (if resolved_nestedEnabled n w then _ else _).
Qed.

Lemma push_unfold (key value : json) (n : option bool) (s : option string)
    (w : world) :
  push key value n s w =
  match check_key key with
  | Return k =>
      writing (if resolved_nestedEnabled n w
               then create_path (push_last k value) (document w)
                      (split k (resolved_separator s w))
               else push_plain k value (document w)) w
  | Throw e => (Throw e, w)
  end.
Proof.
  unfold push, bind, lift, nestedEnabled_or_default, separator_or_default,
    readFile, writeFileSync. cbn [fst snd].
  destruct (check_key key) as [k|e]; [|reflexivity].
  fold (resolved_nestedEnabled n w) (resolved_separator s w) (document w).
  now destruct (if resolved_nestedEnabled n w then _ else _).
Qed.

Lemma delete_unfold (key : json) (n : option bool) (s : option string)
    (w : world) :
  delete key n s w =
  match check_key key with
  | Return k =>
      match (if resolved_nestedEnabled n w
             then delete_path (document w) (split k (resolved_separator s w))
             else delete_own (document w) k) with
      | Return (Some file) => (Return true, written file w)
      | Return None => (Return false, w)
      | Throw e => (Throw e, w)
      end
  | Throw e => (Throw e, w)
  end.
Proof.
  unfold delete, bind, lift, ret, nestedEnabled_or_default, separator_or_default,
    readFile, writeFileSync. cbn [fst snd].
  destruct (check_key key) as [k|e]; [|reflexivity].
  fold (resolved_nestedEnabled n w) (resolved_separator s w) (document w).
  destruct (if resolved_nestedEnabled n w then _ else _) as [[file|]|e];
    reflexivity.
Qed.

Lemma pull_unfold (key : json) (c : callbackOrValue) (pullAll n : option bool)
    (s : option string) (w : world) :
  pull key c pullAll n s w =
  match check_key key with
  | Return k =>
      let all := match pullAll with Some b => b | None => false end in
      if resolved_nestedEnabled n w then
        match traverseAndPull k c all (fun f => f) (document w)
                (split k (resolved_separator s w)) w with
        | (Return r, w') => (Return (fst r), w')
        | (Throw e, w') => (Throw e, w')
        end
      else
        match array_at k (document w) k with
        | Return array =>
            let r := pull_elements c all array in
            (Return (fst r),
             if fst r then written (replace_child (document w) k (JArr (snd r))) w
             else w)
        | Throw e => (Throw e, w)
        end
  | Throw e => (Throw e, w)
  end.
Proof.
  unfold pull, bind, lift, ret, nestedEnabled_or_default, separator_or_default,
    readFile, writeFileSync. cbn [fst snd].
  destruct (check_key key) as [k|e]; [|reflexivity]. cbv zeta.
  fold (resolved_nestedEnabled n w) (resolved_separator s w) (document w).
  destruct (resolved_nestedEnabled n w).
  - now destruct (traverseAndPull _ _ _ _ _ _ w) as [[r|e] w'].
  - destruct (array_at k (document w) k) as [array|e]; [|reflexivity].
    now destruct (fst (pull_elements c _ array)).
Qed.


Lemma fetch_unfold (key : json) (n : option bool) (s : option string) (w : world) :
  fetch key n s w = get key n s w.
Proof.
  unfold fetch, bind, lift, nestedEnabled_or_default, separator_or_default.
  cbn [fst snd]. rewrite !get_unfold.
  now destruct (check_key key).
Qed.

Lemma has_unfold (key : json) (n : option bool) (s : option string) (w : world) :
  has key n s w =
  match get key n s w with
  | (Return v, _) => (Return (truthy v), w)
  | (Throw e, _) => (Throw e, w)
  end.
Proof.
  rewrite has_get. now destruct (get key n s w) as [[v|e] w'].
Qed.

Lemma answering_unfold {A} (f : A -> answer) (c : M A) (w : world) :
  answering f c w =
  match c w with
  | (Return a, w') => (Return (f a), w')
  | (Throw e, w') => (Throw e, w')
  end.
Proof. reflexivity. Qed.

(** ** The checks on the arguments *)

Lemma run_bad_key (c : call) (key : json) (e : exn) (w : world) :
  key_of c = Some key -> check_key key = Throw e -> run c w = (Throw e, w).
Proof.
  intros Hkey Hcheck.
  destruct c; cbn [key_of] in Hkey; try discriminate; injection Hkey as ->;
    cbn [run]; rewrite answering_unfold; unfold add, subtract;
    rewrite ?fetch_unfold, ?has_unfold,
      ?set_unfold, ?get_unfold, ?delete_unfold, ?add_signed_unfold,
      ?push_unfold, ?pull_unfold, Hcheck; reflexivity.
Qed.

(** Every method that takes a key checks it before anything else: a falsy
    key (the empty string, [null], [0], [false]) is refused with
    [InvalidKey], any other value that is not a string with
    [InvalidKeyType], and the world is left as it was. *)
Theorem invalid_key_rejected (c : call) (key : json) (w : world) :
  key_of c = Some key ->
  (truthy_json key = false -> run c w = (Throw (DbError InvalidKey), w)) /\
  (truthy_json key = true -> (forall k, key <> JStr k) ->
   run c w = (Throw (DbError InvalidKeyType), w)).
Proof.
  intros Hkey. split.
  - intros Hfalsy. apply (run_bad_key c key); [assumption|].
    unfold check_key. now rewrite Hfalsy.
  - intros Htruthy Hother. apply (run_bad_key c key); [assumption|].
    unfold check_key. rewrite Htruthy. cbn [negb].
    destruct key; try reflexivity. now destruct (Hother s).
Qed.

(** [add] and [subtract], given a valid key and a value that is not a
    number, fail with [InvalidValueType] and leave the world as it was,
    whatever the document holds. *)
Theorem add_rejects_non_number (k : string) (value : json) (n : option bool)
    (s : option string) (w : world) :
  k <> "" ->
  (forall amount, value <> JNum amount) ->
  add (JStr k) value n s w = (Throw (DbError InvalidValueType), w) /\
  subtract (JStr k) value n s w = (Throw (DbError InvalidValueType), w).
Proof.
  intros Hk Hvalue. unfold add, subtract.
  rewrite !add_signed_unfold, (check_key_string k Hk).
  destruct value; try (split; reflexivity). now destruct (Hvalue n0).
Qed.

(** [fetch] is [get]: the same answer or the same exception, on every key,
    flag, separator and document. *)
Theorem fetch_is_get (key : json) (n : option bool) (s : option string)
    (w : world) :
  fetch key n s w = get key n s w.
Proof. apply fetch_unfold. Qed.


(** ** Mappings, part by part *)

Lemma lookup_replace_other (k k' : string) (v : json) (m : list (string * json)) :
  k <> k' -> lookup k (replace k' v m) = lookup k m.
Proof.
  intros Hne. induction m as [|[k0 v0] m IH]; cbn; [reflexivity|].
  destruct (String.eqb k' k0) eqn:E; cbn.
  - apply String.eqb_eq in E. subst k0.
    destruct (String.eqb k k') eqn:E'; [apply String.eqb_eq in E'; contradiction | reflexivity].
  - destruct (String.eqb k k0); auto.
Qed.

Lemma lookup_app_other (k k' : string) (v : json) (m : list (string * json)) :
  k <> k' -> lookup k (m ++ [(k', v)]) = lookup k m.
Proof.
  intros Hne. induction m as [|[k0 v0] m IH]; cbn.
  - destruct (String.eqb k k') eqn:E; [apply String.eqb_eq in E; contradiction | reflexivity].
  - destruct (String.eqb k k0); auto.
Qed.

Lemma lookup_insert_other (k k' : string) (v : json) (m : list (string * json)) :
  k <> k' -> lookup k (insert k' v m) = lookup k m.
Proof.
  intros Hne. unfold insert. destruct (has_key k' m).
  - now apply lookup_replace_other.
  - now apply lookup_app_other.
Qed.

Lemma lookup_remove_other (k k' : string) (m : list (string * json)) :
  k <> k' -> lookup k (remove k' m) = lookup k m.
Proof.
  intros Hne. unfold remove. induction m as [|[k0 v0] m IH]; cbn; [reflexivity|].
  destruct (String.eqb k' k0) eqn:E; cbn.
  - apply String.eqb_eq in E. subst k0.
    destruct (String.eqb k k') eqn:E'; [apply String.eqb_eq in E'; contradiction | exact IH].
  - destruct (String.eqb k k0); auto.
Qed.

Lemma replace_replace (k : string) (v v' : json) (m : list (string * json)) :
  replace k v (replace k v' m) = replace k v m.
Proof.
  induction m as [|[k0 v0] m IH]; cbn; [reflexivity|].
  destruct (String.eqb k k0) eqn:E; cbn; rewrite E; [reflexivity | now rewrite IH].
Qed.

Lemma replace_app_new (k : string) (v v' : json) (m : list (string * json)) :
  has_key k m = false -> replace k v (m ++ [(k, v')]) = m ++ [(k, v)].
Proof.
  unfold has_key. induction m as [|[k0 v0] m IH]; cbn.
  - now rewrite String.eqb_refl.
  - destruct (String.eqb k k0); [discriminate | intros H; now rewrite IH].
Qed.

(** Assigning twice to a part is assigning the second value. *)
Lemma replace_insert (k : string) (v v' : json) (m : list (string * json)) :
  replace k v (insert k v' m) = insert k v m.
Proof.
  unfold insert. destruct (has_key k m) eqn:E.
  - apply replace_replace.
  - now apply replace_app_new.
Qed.

Lemma insert_present (k : string) (v : json) (m : list (string * json)) :
  has_key k m = true -> insert k v m = replace k v m.
Proof. unfold insert. now intros ->. Qed.

Lemma app_singleton {A} (before : list A) (last x : A) :
  [x] = before ++ [last] -> before = [] /\ last = x.
Proof.
  destruct before as [|b before]; cbn.
  - intros [= ->]. auto.
  - intros [= _ H]. now destruct before.
Qed.

Lemma reach_graft (before : list string) :
  forall (root current new : json),
    reach root before = Some current ->
    reach (graft root before new) before = Some new.
Proof.
  induction before as [|b before IH]; intros root current new Hreach; [reflexivity|].
  cbn [reach graft] in *. destruct root; try discriminate.
  destruct (lookup b members) as [next|] eqn:Hnext; [|discriminate].
  rewrite lookup_replace_same by (apply has_key_lookup; eauto). eauto.
Qed.


Lemma walk_last (c : creator) (k : string) (currentObject : json) (part : string) :
  walk_of c k currentObject [part] = terminal_of c k currentObject part.
Proof. now destruct c. Qed.

(** Along mappings that are there, a creating operation does its work in
    the mapping before the last part and nowhere else. *)
Lemma walk_terminal (c : creator) (k : string) (before : list string) :
  forall (root : json) (m : list (string * json)) (lastPart : string),
    reach root before = Some (JObj m) ->
    walk_of c k root (before ++ [lastPart]) =
    (r <- terminal_of c k (JObj m) lastPart ;; Return (graft root before r))%outcome.
Proof.
  induction before as [|b before IH]; intros root m lastPart Hreach.
  - cbn in Hreach. injection Hreach as ->. cbn [app graft]. rewrite walk_last.
    now destruct (terminal_of c k (JObj m) lastPart).
  - cbn [reach] in Hreach. destruct root; try discriminate.
    destruct (lookup b members) as [next|] eqn:Hnext; [|discriminate].
    destruct (reach_object _ _ _ Hreach) as [m' ->].
    cbn [app]. rewrite (walk_descend c k members m') by auto with store.
    rewrite (IH (JObj m') m lastPart Hreach). cbn [graft]. rewrite Hnext.
    now destruct (terminal_of c k (JObj m) lastPart).
Qed.

Lemma delete_path_more (currentValue : json) (part : string) (rest : list string) :
  rest <> [] ->
  delete_path currentValue (part :: rest) =
  (own <- has_own currentValue part ;;
   if negb own then Return None
   else
     x <- get_prop currentValue part ;;
     match x with
     | Some next =>
         r <- delete_path next rest ;;
         Return (option_map (replace_child currentValue part) r)
     | None => Throw TypeError
     end)%outcome.
Proof. destruct rest; [contradiction | reflexivity]. Qed.




(** ** Reading along mappings *)






(** ** Writing along mappings *)

Lemma creator_unfold (c : creator) (k : string) (n : option bool)
    (s : option string) (w : world) :
  k <> "" ->
  run (call_of c k n s) w =
  match (if resolved_nestedEnabled n w
         then walk_of c k (document w) (split k (resolved_separator s w))
         else match c with
              | BySet value => set_prop (document w) k value
              | ByAdd amount => add_plain 1 k amount (document w)
              | BySubtract amount => add_plain (-1) k amount (document w)
              | ByPush value => push_plain k value (document w)
              end) with
  | Return file => (Return Nothing, written file w)
  | Throw e => (Throw e, w)
  end.
Proof.
  intros Hk.
  destruct c; cbn [call_of run walk_of]; rewrite answering_unfold;
    unfold add, subtract;
    rewrite ?set_unfold, ?add_signed_unfold, ?push_unfold, (check_key_string k Hk);
    cbn [check_number];
    destruct (resolved_nestedEnabled n w);
    match goal with |- context [writing ?o _] => destruct o end; reflexivity.
Qed.

(** With nested mode off, what each creating operation does to a mapping
    is what it does at the last part in nested mode, as long as the part
    holds nothing, or a number for [add] and [subtract], or an array for
    [push]. *)
Lemma plain_terminal (c : creator) (k : string) (m : list (string * json)) :
  match c with
  | BySet _ => True
  | ByAdd _ | BySubtract _ => amount_at m k <> None
  | ByPush _ => array_at_or_new m k <> None
  end ->
  match c with
  | BySet value => set_prop (JObj m) k value
  | ByAdd amount => add_plain 1 k amount (JObj m)
  | BySubtract amount => add_plain (-1) k amount (JObj m)
  | ByPush value => push_plain k value (JObj m)
  end = terminal_of c k (JObj m) k.
Proof.
  destruct c; cbn [terminal_of]; intros H; [reflexivity | | |].
  - unfold amount_at in H. unfold add_plain, add_last. cbn [has_own get_prop obind].
    unfold has_key. destruct (lookup k m) as [[]|]; cbn; try reflexivity;
      try (now destruct H).
    destruct (Z.eqb n 0) eqn:E; cbn; [|reflexivity].
    apply Z.eqb_eq in E. now subst.
  - unfold amount_at in H. unfold add_plain, add_last. cbn [has_own get_prop obind].
    unfold has_key. destruct (lookup k m) as [[]|]; cbn; try reflexivity;
      try (now destruct H).
    destruct (Z.eqb n 0) eqn:E; cbn; [|reflexivity].
    apply Z.eqb_eq in E. now subst.
  - unfold array_at_or_new in H. unfold push_plain, push_last.
    cbn [has_own get_prop obind truthy_json typeof_object negb orb].
    unfold has_key. destruct (lookup k m) as [[]|] eqn:Hk; cbn; try reflexivity;
      try (now destruct H).
    now rewrite replace_insert.
Qed.

Lemma creator_terminal (c : creator) (k : string) (n : option bool)
    (s : option string) (w : world) (before : list string) (lastPart : string)
    (m : list (string * json)) (r : json) :
  k <> "" ->
  path_of k n s w = before ++ [lastPart] ->
  reach (document w) before = Some (JObj m) ->
  match c with
  | BySet _ => True
  | ByAdd _ | BySubtract _ => amount_at m lastPart <> None
  | ByPush _ => array_at_or_new m lastPart <> None
  end ->
  terminal_of c k (JObj m) lastPart = Return r ->
  run (call_of c k n s) w =
  (Return Nothing, written (graft (document w) before r) w).
Proof.
  intros Hk Hpath Hreach Hpre Hlast. rewrite (creator_unfold c k n s w Hk).
  unfold path_of in Hpath. destruct (resolved_nestedEnabled n w).
  - now rewrite Hpath, (walk_terminal c k before _ m lastPart Hreach), Hlast.
  - apply app_singleton in Hpath as [-> ->].
    cbn in Hreach. injection Hreach as Hdoc. rewrite Hdoc.
    now rewrite (plain_terminal c k m Hpre), Hlast.
Qed.

Lemma run_returns_nothing {A} (c : M A) (w w' : world) :
  answering (fun _ => Nothing) c w = (Return Nothing, w') ->
  exists a, c w = (Return a, w').
Proof.
  rewrite answering_unfold. destruct (c w) as [[a|e] w0]; [|discriminate].
  intros [= ->]. eauto.
Qed.

Lemma set_along_mappings (k : string) (value : json) (n : option bool)
    (s : option string) (w : world) (before : list string) (lastPart : string)
    (m : list (string * json)) :
  k <> "" ->
  path_of k n s w = before ++ [lastPart] ->
  reach (document w) before = Some (JObj m) ->
  set (JStr k) value n s w =
  (Return tt,
   written (graft (document w) before (JObj (insert lastPart value m))) w).
Proof.
  intros Hk Hpath Hreach.
  pose proof (creator_terminal (BySet value) k n s w before lastPart m
                (JObj (insert lastPart value m)) Hk Hpath Hreach I eq_refl) as H.
  apply run_returns_nothing in H as [[] H]. exact H.
Qed.





(** ** delete along mappings *)


(** ** pull along mappings *)









(** ** What pull takes out of the array *)

Lemma indexes_from_matches (i : nat) (c : callbackOrValue) (whole rest : list json) :
  indexes_from i c whole rest =
  match rest with
  | [] => []
  | element :: rest' =>
      if matches c whole i element then i :: indexes_from (S i) c whole rest'
      else indexes_from (S i) c whole rest'
  end.
Proof. destruct rest; [reflexivity|]. now destruct c. Qed.

Lemma splice1_middle (before : list json) (x : json) (rest : list json) :
  splice1 (List.length before) (before ++ x :: rest) = before ++ rest.
Proof. induction before as [|b before IH]; cbn; [reflexivity | now rewrite IH]. Qed.

(** Taking the matching indexes out from the last to the first leaves the
    elements that do not match, in their order. *)
Lemma splice_descending (c : callbackOrValue) (whole rest : list json) :
  forall before : list json,
    fold_left (fun a i => splice1 i a)
      (rev (indexes_from (List.length before) c whole rest)) (before ++ rest) =
    before ++ remaining_from (List.length before) c whole rest.
Proof.
  induction rest as [|element rest IH]; intros before; [reflexivity|].
  rewrite indexes_from_matches. cbn [remaining_from].
  specialize (IH (before ++ [element])).
  rewrite length_app, Nat.add_1_r, <- !app_assoc in IH. cbn [app] in IH.
  destruct (matches c whole (List.length before) element).
  - cbn [rev]. rewrite fold_left_app, IH. cbn [fold_left].
    apply splice1_middle.
  - exact IH.
Qed.

Lemma remaining_all_kept (c : callbackOrValue) (whole rest : list json) :
  forall i, indexes_from i c whole rest = [] -> remaining_from i c whole rest = rest.
Proof.
  induction rest as [|element rest IH]; intros i; [reflexivity|].
  rewrite indexes_from_matches. cbn [remaining_from].
  destruct (matches c whole i element); [discriminate|].
  intros H. now rewrite IH.
Qed.

Lemma pull_elements_all (c : callbackOrValue) (array : list json) :
  pull_elements c true array =
  (match indexesToRemove c array with [] => false | _ :: _ => true end,
   remaining_from 0 c array array).
Proof.
  unfold pull_elements, indexesToRemove.
  destruct (indexes_from 0 c array array) as [|i indexes] eqn:E.
  - now rewrite (remaining_all_kept c array array 0 E).
  - rewrite <- E. f_equal. apply (splice_descending c array array []).
Qed.

Lemma remaining_filter (c : callbackOrValue) (p : json -> bool)
    (whole rest : list json) :
  (forall i element, matches c whole i element = p element) ->
  forall i,
    remaining_from i c whole rest = filter (fun element => negb (p element)) rest /\
    match indexes_from i c whole rest with [] => false | _ :: _ => true end
    = existsb p rest.
Proof.
  intros Hp. induction rest as [|element rest IH]; intros i; [split; reflexivity|].
  rewrite indexes_from_matches. cbn [remaining_from filter existsb].
  rewrite Hp. destruct (IH (S i)) as [IH1 IH2].
  destruct (p element); cbn [negb orb]; split; auto. now rewrite IH1.
Qed.

(** With [pullAll], [pull] takes out of the array every element that is
    [===] to the value, or for which the callback answers [true] (shown
    here for a callback that looks at the element only), keeps the others
    in their order, and reports whether there was any. *)
Theorem pull_all_removes_every_match (array : list json) :
  (forall value,
     pull_elements (Value value) true array =
     (existsb (fun element => strict_equals element value) array,
      filter (fun element => negb (strict_equals element value)) array)) /\
  (forall p : json -> bool,
     pull_elements (Callback (fun element _ _ => p element)) true array =
     (existsb p array, filter (fun element => negb (p element)) array)).
Proof.
  split.
  - intros value. rewrite pull_elements_all. unfold indexesToRemove.
    destruct (remaining_filter (Value value)
                (fun element => strict_equals element value) array array
                (fun _ _ => eq_refl) 0) as [-> ->].
    reflexivity.
  - intros p. rewrite pull_elements_all. unfold indexesToRemove.
    destruct (remaining_filter (Callback (fun element _ _ => p element)) p
                array array (fun _ _ => eq_refl) 0) as [-> ->].
    reflexivity.
Qed.

Lemma index_from_first (value : json) (before : list json) (x : json)
    (rest : list json) :
  forallb (fun element => negb (strict_equals element value)) before = true ->
  strict_equals x value = true ->
  forall i, index_from i value (before ++ x :: rest) = Some (i + List.length before).
Proof.
  intros Hbefore Hx. induction before as [|b before IH]; intros i; cbn.
  - now rewrite Hx, Nat.add_0_r.
  - cbn in Hbefore. apply andb_prop in Hbefore as [Hb Hbefore].
    destruct (strict_equals b value); [discriminate|].
    rewrite (IH Hbefore (S i)). f_equal. lia.
Qed.

Lemma index_from_none (value : json) (array : list json) :
  forallb (fun element => negb (strict_equals element value)) array = true ->
  forall i, index_from i value array = None.
Proof.
  induction array as [|b array IH]; intros H i; cbn; [reflexivity|].
  cbn in H. apply andb_prop in H as [Hb H].
  destruct (strict_equals b value); [discriminate | auto].
Qed.

Lemma pull_elements_first (value : json) (array : list json) :
  (forallb (fun element => negb (strict_equals element value)) array = true ->
   pull_elements (Value value) false array = (false, array)) /\
  (forall before x rest,
     array = before ++ x :: rest ->
     forallb (fun element => negb (strict_equals element value)) before = true ->
     strict_equals x value = true ->
     pull_elements (Value value) false array = (true, before ++ rest)).
Proof.
  split.
  - intros H. unfold pull_elements, indexOf. now rewrite index_from_none.
  - intros before x rest -> Hbefore Hx. unfold pull_elements, indexOf.
    rewrite (index_from_first value before x rest Hbefore Hx 0). cbn [Nat.add].
    now rewrite splice1_middle.
Qed.

(** Without [pullAll], [pull] with a value takes out of the array the
    first element that is [===] to it, and that one only; when no element
    is, it takes nothing out. *)
Theorem pull_value_removes_first_match (value : json) (array : list json) :
  (forallb (fun element => negb (strict_equals element value)) array = true ->
   pull_elements (Value value) false array = (false, array)) /\
  (forall before x rest,
     array = before ++ x :: rest ->
     forallb (fun element => negb (strict_equals element value)) before = true ->
     strict_equals x value = true ->
     pull_elements (Value value) false array = (true, before ++ rest)).
Proof. apply pull_elements_first. Qed.

(** ** When the file is written *)

(** [set], [add], [subtract], [push] and [reset], when they return, have
    written the file exactly once, and the instance is as it was. *)
Theorem writers_write_once (c : call) (w : world) (a : answer) :
  always_writes c = true ->
  fst (run c w) = Return a ->
  exists file, snd (run c w) = written file w.
Proof.
  intros Hc.
  destruct c; try discriminate; cbn [run]; rewrite answering_unfold;
    unfold add, subtract, reset;
    rewrite ?set_unfold, ?add_signed_unfold, ?push_unfold.
  - destruct (check_key key); [|discriminate].
    match goal with |- context [writing ?o _] => destruct o end;
      cbn; [eauto | discriminate].
  - destruct (check_key key); [|discriminate].
    destruct (check_number value); [|discriminate].
    match goal with |- context [writing ?o _] => destruct o end;
      cbn; [eauto | discriminate].
  - destruct (check_key key); [|discriminate].
    destruct (check_number value); [|discriminate].
    match goal with |- context [writing ?o _] => destruct o end;
      cbn; [eauto | discriminate].
  - destruct (check_key key); [|discriminate].
    match goal with |- context [writing ?o _] => destruct o end;
      cbn; [eauto | discriminate].
  - intros _. now exists (JObj []).
Qed.

Lemma traverseAndPull_writes (k : string) (c : callbackOrValue) (all : bool)
    (keyParts : list string) :
  forall (file : json -> json) (currentObject : json) (w w' : world)
         (r : bool * json),
    traverseAndPull k c all file currentObject keyParts w = (Return r, w') ->
    if fst r then (writes w < writes w')%nat else w' = w.
Proof.
  induction keyParts as [|part rest IH]; intros file currentObject w w' r.
  - cbn. discriminate.
  - destruct rest as [|part' rest'].
    + rewrite traverseAndPull_last. unfold bind, lift, ret, writeFileSync.
      destruct (array_at k currentObject part) as [array|e]; [|discriminate].
      cbv zeta. destruct (pull_elements c all array) as [[] array'];
        cbn [fst snd]; intros [= <- <-]; cbn; auto.
    + rewrite traverseAndPull_step. unfold bind at 1, lift.
      destruct (object_at k currentObject part) as [next|e]; [|discriminate].
      unfold bind at 1.
      destruct (traverseAndPull k c all _ next (part' :: rest') w)
        as [[r'|e] w1] eqn:Hinner; [|discriminate].
      apply IH in Hinner. cbv zeta. unfold bind, ret, writeFileSync.
      destruct r' as [[] after]; cbn [fst snd] in *; intros [= <- <-]; cbn;
        [lia | auto].
Qed.

(** [delete] and [pull] write only when they take something out: when
    they return [false] the world is as it was; when [delete] returns
    [true] it has written once; when [pull] returns [true] it has written
    at least once. *)
Theorem removers_write_when_removing (key : json) (n : option bool)
    (s : option string) (w : world) :
  (forall b, fst (delete key n s w) = Return b ->
     if b then exists file, snd (delete key n s w) = written file w
     else snd (delete key n s w) = w) /\
  (forall c pullAll b, fst (pull key c pullAll n s w) = Return b ->
     if b then (writes w < writes (snd (pull key c pullAll n s w)))%nat
     else snd (pull key c pullAll n s w) = w).
Proof.
  split.
  - intros b. rewrite delete_unfold.
    destruct (check_key key) as [k|e]; [|discriminate].
    destruct (if resolved_nestedEnabled n w then _ else _) as [[file|]|e];
      cbn; try discriminate; intros [= <-]; eauto.
  - intros c pullAll b. rewrite pull_unfold.
    destruct (check_key key) as [k|e]; [|discriminate]. cbv zeta.
    destruct (resolved_nestedEnabled n w).
    + destruct (traverseAndPull k c _ _ _ _ w) as [[r|e] w'] eqn:H; [|discriminate].
      apply traverseAndPull_writes in H. cbn. now intros [= <-].
    + destruct (array_at k (document w) k) as [array|e]; [|discriminate].
      cbn [fst snd]. intros [= <-].
      destruct (fst (pull_elements c _ array)); cbn; auto.
Qed.

(** Whatever a call throws, a [DatabaseError] or an exception of the
    runtime ([TypeError], [RangeError]), it throws before it writes. *)
Theorem exception_before_write (c : call) (w : world) (e : exn) :
  fst (run c w) = Throw e -> snd (run c w) = w.
Proof. apply run_throws_before_writing. Qed.

(** ** The other entries of the document *)

Lemma differs_at_same (part : string) (m : list (string * json)) :
  differs_at part m (JObj m).
Proof. exists m. auto. Qed.

Lemma differs_at_store (part : string) (m : list (string * json)) (v : json) :
  differs_at part m (JObj (insert part v m)).
Proof. eexists. split; [reflexivity|]. intros. now apply lookup_insert_other. Qed.

Lemma differs_at_replace (part : string) (m : list (string * json)) (v : json) :
  differs_at part m (JObj (replace part v m)).
Proof. eexists. split; [reflexivity|]. intros. now apply lookup_replace_other. Qed.

Lemma differs_at_remove (part : string) (m : list (string * json)) :
  differs_at part m (JObj (remove part m)).
Proof. eexists. split; [reflexivity|]. intros. now apply lookup_remove_other. Qed.

Lemma differs_at_created (part : string) (m : list (string * json)) (v child : json) :
  differs_at part m (JObj (replace part child (insert part v m))).
Proof.
  eexists. split; [reflexivity|]. intros other Hother.
  now rewrite lookup_replace_other, lookup_insert_other.
Qed.

#[local] Hint Resolve differs_at_same differs_at_store differs_at_replace
  differs_at_remove differs_at_created : store.

Lemma set_prop_differs (m : list (string * json)) (part : string) (v after : json) :
  set_prop (JObj m) part v = Return after -> differs_at part m after.
Proof. cbn. intros [= <-]. auto with store. Qed.

Lemma set_path_differs (m : list (string * json)) (keyParts : list string)
    (value after : json) :
  set_path (JObj m) keyParts value = Return after ->
  differs_at (hd no_part keyParts) m after.
Proof.
  destruct keyParts as [|part [|part' rest]]; cbn [hd].
  - apply set_prop_differs.
  - apply set_prop_differs.
  - rewrite set_path_more by discriminate. cbn [get_prop obind].
    destruct (negb (truthy (lookup part m))).
    + cbn [set_prop store_prop read_back obind].
      destruct (set_path (JObj []) (part' :: rest) value); cbn; [|discriminate].
      intros [= <-]. auto with store.
    + destruct (negb (typeof_object (lookup part m))); [discriminate|].
      destruct (lookup part m) as [next|]; [|discriminate].
      destruct (set_path next (part' :: rest) value); cbn; [|discriminate].
      intros [= <-]. auto with store.
Qed.

Lemma create_path_differs (last : json -> string -> outcome json)
    (m : list (string * json)) (keyParts : list string) (after : json) :
  (forall lastPart after',
     last (JObj m) lastPart = Return after' -> differs_at lastPart m after') ->
  create_path last (JObj m) keyParts = Return after ->
  differs_at (hd no_part keyParts) m after.
Proof.
  intros Hlast. destruct keyParts as [|part [|part' rest]]; cbn [hd].
  - apply Hlast.
  - apply Hlast.
  - rewrite create_path_more by discriminate. cbn [has_own get_prop obind].
    destruct (negb (has_key part m)).
    + cbn [set_prop store_prop read_back obind].
      destruct (create_path last (JObj []) (part' :: rest)); cbn; [|discriminate].
      intros [= <-]. auto with store.
    + destruct (negb (typeof_object (lookup part m))); [discriminate|].
      destruct (lookup part m) as [next|]; [|discriminate].
      destruct (create_path last next (part' :: rest)); cbn; [|discriminate].
      intros [= <-]. auto with store.
Qed.

Lemma add_last_differs (sign : Z) (k : string) (amount : Z)
    (m : list (string * json)) (lastPart : string) (after : json) :
  add_last sign k amount (JObj m) lastPart = Return after ->
  differs_at lastPart m after.
Proof.
  unfold add_last. cbn [get_prop obind].
  destruct (negb (truthy (lookup lastPart m))); [apply set_prop_differs|].
  destruct (lookup lastPart m) as [[]|]; try discriminate. apply set_prop_differs.
Qed.

Lemma add_plain_differs (sign : Z) (k : string) (amount : Z)
    (m : list (string * json)) (after : json) :
  add_plain sign k amount (JObj m) = Return after -> differs_at k m after.
Proof.
  unfold add_plain. cbn [has_own get_prop obind].
  destruct (negb (has_key k m)); [apply set_prop_differs|].
  destruct (lookup k m) as [[]|]; try discriminate. apply set_prop_differs.
Qed.

Lemma push_last_differs (k : string) (value : json) (m : list (string * json))
    (lastPart : string) (after : json) :
  push_last k value (JObj m) lastPart = Return after ->
  differs_at lastPart m after.
Proof.
  unfold push_last. cbn [truthy_json typeof_object negb orb get_prop obind].
  destruct (negb (truthy (lookup lastPart m))).
  - cbn. intros [= <-]. auto with store.
  - destruct (negb (isArray (lookup lastPart m))); [discriminate|].
    destruct (lookup lastPart m) as [[]|]; cbn; try discriminate.
    intros [= <-]. auto with store.
Qed.

Lemma push_plain_differs (k : string) (value : json) (m : list (string * json))
    (after : json) :
  push_plain k value (JObj m) = Return after -> differs_at k m after.
Proof.
  unfold push_plain. cbn [has_own get_prop obind].
  destruct (negb (has_key k m)); [apply set_prop_differs|].
  destruct (lookup k m) as [[]|]; cbn; try discriminate.
  intros [= <-]. auto with store.
Qed.

Lemma delete_own_differs (m : list (string * json)) (part : string) (after : json) :
  delete_own (JObj m) part = Return (Some after) -> differs_at part m after.
Proof.
  unfold delete_own. cbn [has_own obind].
  destruct (has_key part m); cbn; [|discriminate].
  intros [= <-]. auto with store.
Qed.

Lemma delete_path_differs (m : list (string * json)) (keyParts : list string)
    (after : json) :
  delete_path (JObj m) keyParts = Return (Some after) ->
  differs_at (hd no_part keyParts) m after.
Proof.
  destruct keyParts as [|part [|part' rest]]; cbn [hd].
  - apply delete_own_differs.
  - apply delete_own_differs.
  - rewrite delete_path_more by discriminate. cbn [has_own get_prop obind].
    destruct (negb (has_key part m)); [discriminate|].
    destruct (lookup part m) as [next|]; [|discriminate].
    destruct (delete_path next (part' :: rest)) as [[child|]|]; cbn; try discriminate.
    intros [= <-]. auto with store.
Qed.

(** What a frame of [pull] leaves in the file is the document rebuilt
    from what it returns, and that is its object with one child changed. *)
Lemma traverseAndPull_current (k : string) (c : callbackOrValue) (all : bool)
    (keyParts : list string) :
  forall (file : json -> json) (currentObject : json) (w w' : world)
         (r : bool * json),
    traverseAndPull k c all file currentObject keyParts w = (Return r, w') ->
    (exists child,
       snd r = replace_child currentObject (hd no_part keyParts) child) /\
    (w' = w \/ fileContent w' = Some (file (snd r))).
Proof.
  induction keyParts as [|part rest IH]; intros file currentObject w w' r.
  - cbn. discriminate.
  - destruct rest as [|part' rest']; cbn [hd].
    + rewrite traverseAndPull_last. unfold bind, lift, ret, writeFileSync.
      destruct (array_at k currentObject part) as [array|e]; [|discriminate].
      cbv zeta. destruct (pull_elements c all array) as [[] array'];
        cbn [fst snd]; intros [= <- <-]; cbn; eauto.
    + rewrite traverseAndPull_step. unfold bind at 1, lift.
      destruct (object_at k currentObject part) as [next|e]; [|discriminate].
      unfold bind at 1.
      destruct (traverseAndPull k c all _ next (part' :: rest') w)
        as [[r'|e] w1] eqn:Hinner; [|discriminate].
      apply IH in Hinner as [_ Hfile]. cbv zeta. unfold bind, ret, writeFileSync.
      destruct r' as [[] after]; cbn [fst snd] in *; intros [= <- <-]; cbn; eauto.
Qed.

Lemma check_key_returns (k k' : string) : check_key (JStr k) = Return k' -> k' = k.
Proof.
  unfold check_key. cbn. destruct (String.eqb k ""); cbn; [discriminate|].
  now intros [= <-].
Qed.

Lemma run_reader_world {A} (f : A -> answer) (c : M A) (w : world) :
  writes_nothing c -> snd (answering f c w) = w.
Proof.
  intros H. rewrite answering_unfold. specialize (H w).
  now destruct (c w) as [[a|e] w'].
Qed.

Lemma run_differs (c : call) (k : string) (w : world) (m : list (string * json)) :
  key_of c = Some (JStr k) ->
  document w = JObj m ->
  differs_at (first_part k (nested_of c) (separator_of c) w) m
    (document (snd (run c w))).
Proof.
  intros Hkey Hdoc.
  destruct c; cbn [key_of] in Hkey; try discriminate; injection Hkey as ->;
    cbn [run nested_of separator_of]; unfold first_part, path_of.
  - (* set *)
    rewrite answering_unfold, set_unfold.
    destruct (check_key (JStr k)) as [k'|e] eqn:Hk;
      [apply check_key_returns in Hk as -> | cbn; rewrite Hdoc; auto with store].
    rewrite Hdoc.
    destruct (resolved_nestedEnabled nestedEnabled0 w);
      match goal with |- context [writing ?o _] => destruct o eqn:Hwalk end;
      cbn; rewrite ?Hdoc; auto with store.
    + now apply set_path_differs in Hwalk.
    + now apply set_prop_differs in Hwalk.
  - (* get *)
    rewrite run_reader_world by apply get_writes_nothing.
    rewrite Hdoc. auto with store.
  - (* fetch *)
    rewrite run_reader_world by apply fetch_writes_nothing.
    rewrite Hdoc. auto with store.
  - (* delete *)
    rewrite answering_unfold, delete_unfold.
    destruct (check_key (JStr k)) as [k'|e] eqn:Hk;
      [apply check_key_returns in Hk as -> | cbn; rewrite Hdoc; auto with store].
    rewrite Hdoc.
    destruct (resolved_nestedEnabled nestedEnabled0 w);
      match goal with |- context [match ?o with Return _ => _ | Throw _ => _ end] =>
        destruct o as [[file|]|e] eqn:Hwalk end;
      cbn; rewrite ?Hdoc; auto with store.
    + now apply delete_path_differs in Hwalk.
    + now apply delete_own_differs in Hwalk.
  - (* has *)
    rewrite run_reader_world by apply has_writes_nothing.
    rewrite Hdoc. auto with store.
  - (* add *)
    unfold add. rewrite answering_unfold, add_signed_unfold.
    destruct (check_key (JStr k)) as [k'|e] eqn:Hk;
      [apply check_key_returns in Hk as -> | cbn; rewrite Hdoc; auto with store].
    destruct (check_number value) as [amount|e];
      [| cbn; rewrite Hdoc; auto with store].
    rewrite Hdoc.
    destruct (resolved_nestedEnabled nestedEnabled0 w);
      match goal with |- context [writing ?o _] => destruct o eqn:Hwalk end;
      cbn; rewrite ?Hdoc; auto with store.
    + apply create_path_differs in Hwalk; [assumption|].
      intros lastPart after'. apply add_last_differs.
    + now apply add_plain_differs in Hwalk.
  - (* subtract *)
    unfold subtract. rewrite answering_unfold, add_signed_unfold.
    destruct (check_key (JStr k)) as [k'|e] eqn:Hk;
      [apply check_key_returns in Hk as -> | cbn; rewrite Hdoc; auto with store].
    destruct (check_number value) as [amount|e];
      [| cbn; rewrite Hdoc; auto with store].
    rewrite Hdoc.
    destruct (resolved_nestedEnabled nestedEnabled0 w);
      match goal with |- context [writing ?o _] => destruct o eqn:Hwalk end;
      cbn; rewrite ?Hdoc; auto with store.
    + apply create_path_differs in Hwalk; [assumption|].
      intros lastPart after'. apply add_last_differs.
    + now apply add_plain_differs in Hwalk.
  - (* push *)
    rewrite answering_unfold, push_unfold.
    destruct (check_key (JStr k)) as [k'|e] eqn:Hk;
      [apply check_key_returns in Hk as -> | cbn; rewrite Hdoc; auto with store].
    rewrite Hdoc.
    destruct (resolved_nestedEnabled nestedEnabled0 w);
      match goal with |- context [writing ?o _] => destruct o eqn:Hwalk end;
      cbn; rewrite ?Hdoc; auto with store.
    + apply create_path_differs in Hwalk; [assumption|].
      intros lastPart after'. apply push_last_differs.
    + now apply push_plain_differs in Hwalk.
  - (* pull *)
    rewrite answering_unfold, pull_unfold.
    destruct (check_key (JStr k)) as [k'|e] eqn:Hk;
      [apply check_key_returns in Hk as -> | cbn; rewrite Hdoc; auto with store].
    cbv zeta. rewrite Hdoc.
    destruct (resolved_nestedEnabled nestedEnabled0 w).
    + destruct (traverseAndPull k c _ _ _ _ w) as [[r|e] w'] eqn:Hpull.
      * apply traverseAndPull_current in Hpull as [[child Hchild] [-> | Hfile]];
          cbn [snd]; [rewrite Hdoc; auto with store|].
        unfold document. rewrite Hfile, Hchild. cbn. auto with store.
      * pose proof (traverseAndPull_throws_before_writing k c
                      (match pullAll with Some b => b | None => false end)
                      (split k (resolved_separator separator0 w))
                      (fun f => f) (JObj m) w e) as Hsame.
        rewrite Hpull in Hsame. cbn in *. rewrite (Hsame eq_refl), Hdoc.
        auto with store.
    + destruct (array_at k (JObj m) k) as [array|e];
        [| cbn; rewrite Hdoc; auto with store].
      cbv zeta. destruct (fst (pull_elements c _ array)); cbn;
        rewrite ?Hdoc; auto with store.
Qed.

(** A call on a key changes, in a document that is a mapping, at most the
    entry named by the first part of the key (the whole key when nested
    mode is off): every other entry of the document is after the call
    what it was before, whether the call returned or threw. *)
Theorem other_entries_untouched (c : call) (k : string) (w : world)
    (m : list (string * json)) (other : string) :
  key_of c = Some (JStr k) ->
  document w = JObj m ->
  other <> first_part k (nested_of c) (separator_of c) w ->
  exists m',
    document (snd (run c w)) = JObj m' /\ lookup other m' = lookup other m.
Proof.
  intros Hkey Hdoc Hother.
  destruct (run_differs c k w m Hkey Hdoc) as [m' [Hafter Hsame]].
  exists m'. auto.
Qed.

(** ** How the operations compose *)



Lemma insert_insert (k : string) (v v' : json) (m : list (string * json)) :
  insert k v (insert k v' m) = insert k v m.
Proof.
  rewrite (insert_present k v (insert k v' m)) by apply has_key_insert_same.
  apply replace_insert.
Qed.

Lemma graft_graft (before : list string) :
  forall (root current x y : json),
    reach root before = Some current ->
    graft (graft root before x) before y = graft root before y.
Proof.
  induction before as [|b before IH]; intros root current x y Hreach; [reflexivity|].
  cbn [reach graft] in *. destruct root; try discriminate.
  destruct (lookup b members) as [next|] eqn:Hnext; [|discriminate].
  cbn [graft]. rewrite lookup_replace_same by (apply has_key_lookup; eauto).
  now rewrite (IH next current x y Hreach), replace_replace.
Qed.



(** The last [set] wins: two calls of [set] on the same key, along
    mappings that are there, leave the file with the document that the
    second call alone would have written. *)
Theorem set_twice (k : string) (first second : json) (n : option bool)
    (s : option string) (w : world) (before : list string) (lastPart : string)
    (m : list (string * json)) :
  k <> "" ->
  path_of k n s w = before ++ [lastPart] ->
  reach (document w) before = Some (JObj m) ->
  fileContent (snd (set (JStr k) second n s (snd (set (JStr k) first n s w)))) =
  fileContent (snd (set (JStr k) second n s w)).
Proof.
  intros Hk Hpath Hreach.
  rewrite (set_along_mappings k first n s w before lastPart m Hk Hpath Hreach).
  cbn [snd].
  rewrite (set_along_mappings k second n s
             (written (graft (document w) before (JObj (insert lastPart first m))) w)
             before lastPart (insert lastPart first m) Hk Hpath
             (reach_graft before _ _ _ Hreach)).
  rewrite (set_along_mappings k second n s w before lastPart m Hk Hpath Hreach).
  cbn [snd written fileContent document].
  now rewrite (graft_graft before _ _ _ _ Hreach), insert_insert.
Qed.





(** [pull] with a value that is an array or a mapping never takes anything
    out, with or without [pullAll]: the elements read from the file are
    compared by [===], and none of them is the caller's object. *)
Theorem pull_object_never_matches (pullAll : bool) (array : list json) :
  (forall elements,
     pull_elements (Value (JArr elements)) pullAll array = (false, array)) /\
  (forall members,
     pull_elements (Value (JObj members)) pullAll array = (false, array)).
Proof.
  assert (H : forall value,
             (forall element, strict_equals element value = false) ->
             pull_elements (Value value) pullAll array = (false, array)).
  { intros value Hnever.
    assert (Hall : forallb (fun element => negb (strict_equals element value)) array
                   = true).
    { apply forallb_forall. intros element _. now rewrite Hnever. }
    destruct pullAll.
    - rewrite pull_elements_all. unfold indexesToRemove.
      destruct (remaining_filter (Value value)
                  (fun element => strict_equals element value) array array
                  (fun _ _ => eq_refl) 0) as [-> ->].
      f_equal.
      + induction array as [|x array IH]; cbn; [reflexivity|].
        rewrite Hnever. cbn in Hall. apply andb_prop in Hall as [_ Hall]. auto.
      + induction array as [|x array IH]; cbn; [reflexivity|].
        rewrite Hnever. cbn. cbn in Hall. apply andb_prop in Hall as [_ Hall].
        now rewrite IH.
    - now apply pull_elements_first. }
  split; intros; apply H; intros element; now destruct element.
Qed.

(** ** reset and all *)





(** ** Keys of one part *)




(** ** Below a value that is not a mapping *)



(** ** A last part of the wrong kind *)



End Coverage.

(** * The properties at work *)

#[local] Existing Instance example_runtime.

(** ** set followed by get (C1) *)



(** The round trip of the specification, with what [all] reports. *)
Example set_get_all_nested :
  let w := snd (set (JStr "a..b..c") (JNum 1) None None (opened (JObj []))) in
  fst (get (JStr "a..b..c") None None w) = Return (Some (JNum 1)) /\
  fst (all w) = Return [("a", Some (JObj [("b", JObj [("c", JNum 1)])]))].
Proof. split; reflexivity. Qed.

(** With nested mode off for the call, the key is one literal name. *)
Example set_literal_key :
  fileContent (snd (set (JStr "a..b") (JNum 1) (Some false) None (opened (JObj []))))
  = Some (JObj [("a..b", JNum 1)]).
Proof. reflexivity. Qed.

(** ** pull with a callback (C2) *)

(** C2: the code at the failing input.  With [pullAll] left out, the
    callback of the documentation's own example is never called: the
    element is searched for with [indexOf], nothing is removed, nothing is
    written, and the call returns [false], although [20] is greater than
    [10]. *)
Theorem pull_callback_first_match_ignored :
  let w := opened (JObj [("myArray", JArr [JNum 5; JNum 20])]) in
  pull (JStr "myArray") greater_than_10 None None None w = (Return false, w).
Proof. reflexivity. Qed.

(** The branch for [pullAll = true] does call it. *)
Example pull_callback_all :
  let w := opened (JObj [("myArray", JArr [JNum 5; JNum 20; JNum 1; JNum 30])]) in
  pull (JStr "myArray") greater_than_10 (Some true) None None w
  = (Return true, written (JObj [("myArray", JArr [JNum 5; JNum 1])]) w).
Proof. reflexivity. Qed.

(** Whatever the callback and the array, without [pullAll] nothing is
    removed. *)
Lemma pull_elements_callback (f : json -> nat -> list json -> bool)
    (array : list json) :
  pull_elements (Callback f) false array = (false, array).
Proof. reflexivity. Qed.

(** A value is removed at its first occurrence only. *)
Example pull_value_first :
  let w := opened (JObj [("arr", JArr [JNum 1; JNum 5; JNum 20; JNum 5])]) in
  pull (JStr "arr") (Value (JNum 5)) (Some false) None None w
  = (Return true, written (JObj [("arr", JArr [JNum 1; JNum 20; JNum 5])]) w).
Proof. reflexivity. Qed.

(** ** add on a falsy target (C3) *)

(** C3: the code at the failing input.  On [{"score": null}],
    [add("score", 5)] in nested mode takes the [null] for a missing value
    and overwrites it with [5]; with nested mode off the same call fails
    with [NonNumericTarget]. *)
Theorem add_overwrites_null_in_nested_mode :
  let w := opened (JObj [("score", JNull)]) in
  add (JStr "score") (JNum 5) (Some true) None w
  = (Return tt, written (JObj [("score", JNum 5)]) w) /\
  add (JStr "score") (JNum 5) (Some false) None w
  = (Throw (DbError (NonNumericTarget "score")), w).
Proof. split; reflexivity. Qed.

Example subtract_overwrites_false_in_nested_mode :
  let w := opened (JObj [("flag", JBool false)]) in
  subtract (JStr "flag") (JNum 5) (Some true) None w
  = (Return tt, written (JObj [("flag", JNum (-5))]) w) /\
  subtract (JStr "flag") (JNum 5) (Some false) None w
  = (Throw (DbError (NonNumericTarget "flag")), w).
Proof. split; reflexivity. Qed.

(** The example of the specification. *)
Example add_twice :
  let w1 := snd (add (JStr "score") (JNum 10) None None (opened (JObj []))) in
  let w2 := snd (add (JStr "score") (JNum 5) None None w1) in
  fileContent w1 = Some (JObj [("score", JNum 10)]) /\
  fileContent w2 = Some (JObj [("score", JNum 15)]).
Proof. split; reflexivity. Qed.

(** ** Intermediate segments (C4) *)



(** A missing part becomes a mapping, for [push] as for the others. *)
Example push_creates_mappings :
  let w := opened (JObj [("a", JObj [])]) in
  run (call_of (ByPush (JStr "x")) "a..b..list" None None) w
  = (Return Nothing,
     written (JObj [("a", JObj [("b", JObj [("list", JArr [JStr "x"])])])]) w).
Proof. reflexivity. Qed.

(** ** get, fetch and delete below null (C5, C7) *)

(** C5: the code at the failing input.  On [{"a": null}], [get("a..b")]
    and [fetch("a..b")] find the part [a], step into [null], and throw a
    [TypeError] when they ask it for [b]. *)
Theorem get_below_null_throws :
  let w := opened (JObj [("a", JNull)]) in
  get (JStr "a..b") None None w = (Throw TypeError, w) /\
  fetch (JStr "a..b") None None w = (Throw TypeError, w).
Proof. split; reflexivity. Qed.

(** Below a number, a string or a boolean they do return [undefined]. *)
Example get_below_number :
  fst (get (JStr "a..b") None None (opened (JObj [("a", JNum 1)]))) = Return undefined.
Proof. reflexivity. Qed.

(** C7: the code at the failing input.  On [{"a": null}], [delete("a..b")],
    whose entry [b] is absent, does not return [false]: it throws a
    [TypeError] when it asks [null] for [b]. *)
Theorem delete_below_null_throws :
  let w := opened (JObj [("a", JNull)]) in
  delete (JStr "a..b") None None w = (Throw TypeError, w).
Proof. reflexivity. Qed.

Example delete_present_and_absent :
  let w := opened (JObj [("a", JObj [("b", JNum 1); ("c", JNum 2)])]) in
  delete (JStr "a..b") None None w
  = (Return true, written (JObj [("a", JObj [("c", JNum 2)])]) w) /\
  delete (JStr "a..x") None None w = (Return false, w) /\
  delete (JStr "y..x") None None w = (Return false, w).
Proof. repeat split. Qed.

(** ** has (C6) *)

Lemma has_iff_get_truthy_witness :
  let w := opened (JObj [("count", JNum 0)]) in
  fst (get (JStr "count") None None w) = Return (Some (JNum 0)) /\
  fst (has (JStr "count") None None w) = Return false.
Proof.
  cbv zeta. split; [reflexivity |].
  apply (proj2 (has_iff_get_truthy (JStr "count") None None
                  (opened (JObj [("count", JNum 0)]))) (Some (JNum 0)));
    [reflexivity | cbn; auto].
Defined.

(** ** Failing before the write (C9) *)

Lemma DatabaseError_before_write_witness :
  let w := opened (JObj [("a", JNum 0)]) in
  let c := Add (JStr "a..b") (JNum 1) None None in
  fst (run c w) = Throw (DbError (CannotCreateProperty "a" "number")) /\
  snd (run c w) = w.
Proof.
  cbv zeta. split; [reflexivity |].
  apply (DatabaseError_before_write (Add (JStr "a..b") (JNum 1) None None)
           (opened (JObj [("a", JNum 0)])) (CannotCreateProperty "a" "number")).
  reflexivity.
Defined.

(** ** More of the operations, on examples *)

Lemma invalid_key_rejected_witness :
  let w := opened (JObj [("a", JNum 1)]) in
  let c := Delete (JNum 7) None None in
  (key_of c = Some (JNum 7) /\ truthy_json (JNum 7) = true) /\
  run c w = (Throw (DbError InvalidKeyType), w).
Proof.
  cbv zeta. split; [split; reflexivity |].
  apply (proj2 (invalid_key_rejected (Delete (JNum 7) None None) (JNum 7)
                  (opened (JObj [("a", JNum 1)])) eq_refl));
    [reflexivity | discriminate].
Defined.

Lemma add_rejects_non_number_witness :
  let w := opened (JObj [("score", JNum 1)]) in
  "score" <> "" /\
  add (JStr "score") (JStr "5") None None w
  = (Throw (DbError InvalidValueType), w).
Proof.
  cbv zeta. split; [discriminate |].
  apply (proj1 (add_rejects_non_number "score" (JStr "5") None None
                  (opened (JObj [("score", JNum 1)]))
                  ltac:(discriminate) ltac:(discriminate))).
Defined.



Lemma set_twice_witness :
  let w := opened (JObj [("a", JObj [])]) in
  ("a..b" <> "" /\
   path_of "a..b" None None w = ["a"] ++ ["b"] /\
   reach (document w) ["a"] = Some (JObj [])) /\
  fileContent (snd (set (JStr "a..b") (JNum 2) None None
                      (snd (set (JStr "a..b") (JNum 1) None None w))))
  = fileContent (snd (set (JStr "a..b") (JNum 2) None None w)).
Proof.
  cbv zeta. split; [repeat split; discriminate |].
  apply (set_twice "a..b" (JNum 1) (JNum 2) None None
           (opened (JObj [("a", JObj [])])) ["a"] "b" []
           ltac:(discriminate) eq_refl eq_refl).
Defined.








Lemma writers_write_once_witness :
  let w := opened (JObj []) in
  let c := Push (JStr "list") (JNum 1) None None in
  (always_writes c = true /\ fst (run c w) = Return Nothing) /\
  exists file, snd (run c w) = written file w.
Proof.
  cbv zeta. split; [split; reflexivity |].
  apply (writers_write_once (Push (JStr "list") (JNum 1) None None)
           (opened (JObj [])) Nothing eq_refl eq_refl).
Defined.

Lemma exception_before_write_witness :
  let w := opened (JObj [("a", JNull)]) in
  let c := Add (JStr "a..b") (JNum 1) None None in
  fst (run c w) = Throw TypeError /\ snd (run c w) = w.
Proof.
  cbv zeta. split; [reflexivity |].
  apply (exception_before_write (Add (JStr "a..b") (JNum 1) None None)
           (opened (JObj [("a", JNull)])) TypeError eq_refl).
Defined.

Lemma other_entries_untouched_witness :
  let w := opened (JObj [("a", JObj [("b", JNum 1)]); ("keep", JStr "me")]) in
  let c := Set_ (JStr "a..b..c") (JNum 2) None None in
  (key_of c = Some (JStr "a..b..c") /\
   document w = JObj [("a", JObj [("b", JNum 1)]); ("keep", JStr "me")] /\
   "keep" <> first_part "a..b..c" (nested_of c) (separator_of c) w) /\
  exists m',
    document (snd (run c w)) = JObj m' /\
    lookup "keep" m' = lookup "keep" [("a", JObj [("b", JNum 1)]); ("keep", JStr "me")].
Proof.
  cbv zeta. split; [repeat split; discriminate |].
  apply (other_entries_untouched (Set_ (JStr "a..b..c") (JNum 2) None None)
           "a..b..c"
           (opened (JObj [("a", JObj [("b", JNum 1)]); ("keep", JStr "me")]))
           [("a", JObj [("b", JNum 1)]); ("keep", JStr "me")] "keep"
           eq_refl eq_refl ltac:(discriminate)).
Defined.




